(** * go-tcp: session and wire-protocol core

    A shallow embedding of the Go sources of the repository:

    - [Go]: the few standard-library operations the sources call
      ([encoding/binary], [bufio.Reader], [io.ReadFull], [net.Conn],
      [strings] and [bytes] helpers), modelled from their documented
      behaviour;
    - [Client]: package [client] with the length-prefixed wire format
      (src/client/client.go);
    - [Server]: package [server] with the newline-delimited wire format
      (src/unnamed/part_000);
    - [LegacyClient]: package [client] with the delimiter-character text
      protocol (src/unnamed/part_001), and [LegacyWire]: its send path.

    Go's [string] and [[]byte] are both sequences of bytes and are both
    [list byte] here.  [int] is 64 bits wide and is modelled by [Z];
    fixed-width unsigned conversions are written out as [mod].  Handler
    values are opaque code pointers: [None] is Go's [nil] func, [Some h]
    a function identified by [h]; what a handler body does is application
    code and lies outside the model.  Goroutines started with [go] run at
    the point where they are spawned. *)

From Stdlib Require Import Strings.String.
From Stdlib Require Import ZArith List Lia Bool Strings.Byte.
From stdpp Require Import base countable gmap list.
Import ListNotations.
Open Scope Z_scope.

#[global] Instance byte_eq_dec : EqDecision byte := Byte.byte_eq_dec.
#[global] Instance byte_countable : Countable byte :=
  inj_countable Byte.to_N Byte.of_N Byte.of_to_N.

(** ** The Go runtime and standard library, as far as the sources use them *)

Module Go.

Definition gostring := list byte.

Definition str (s : String.string) : gostring := String.list_byte_of_string s.
Arguments str s%_string.

(** [len(x)] *)
Definition len {A} (l : list A) : Z := Z.of_nat (length l).

(** [byte(x)]: the low eight bits. *)
Definition byte_of_Z (z : Z) : byte :=
  match Byte.of_N (Z.to_N (z mod 256)) with
  | Some b => b
  | None => x00
  end.

Definition Z_of_byte (b : byte) : Z := Z.of_N (Byte.to_N b).

Definition uint16 (z : Z) : Z := z mod 2 ^ 16.
Definition uint32 (z : Z) : Z := z mod 2 ^ 32.
(** two's complement [int64] *)
Definition int64 (z : Z) : Z := (z + 2 ^ 63) mod 2 ^ 64 - 2 ^ 63.

(** What ends a Go process abnormally. *)
Inductive crash :=
| NilFuncCall          (* call of a nil func value *)
| IndexOutOfRange      (* x[i] with i outside 0 <= i < len(x) *)
| SliceOutOfRange      (* x[lo:hi] outside 0 <= lo <= hi <= cap(x) *)
| FatalLog             (* log.Fatalln: os.Exit(1) *)
| StillRunning.        (* the loop has not ended within the fuel given *)

Inductive Outcome (A : Type) :=
| Ret (a : A)
| Crash (c : crash).
Arguments Ret {A} a.
Arguments Crash {A} c.

#[global] Instance Outcome_bind : MBind Outcome := fun A B k m =>
  match m with
  | Ret a => k a
  | Crash c => Crash c
  end.

(** [x[i]] *)
Definition index (l : list byte) (i : Z) : Outcome byte :=
  if (0 <=? i) && (i <? len l)
  then match nth_error l (Z.to_nat i) with
       | Some b => Ret b
       | None => Crash IndexOutOfRange
       end
  else Crash IndexOutOfRange.

(** [x[lo:hi]] on a slice whose capacity equals its length. *)
Definition slice (l : list byte) (lo hi : Z) : Outcome (list byte) :=
  if (0 <=? lo) && (lo <=? hi) && (hi <=? len l)
  then Ret (firstn (Z.to_nat (hi - lo)) (skipn (Z.to_nat lo) l))
  else Crash SliceOutOfRange.

(** *** encoding/binary, BigEndian *)

Definition PutUint16 (v : Z) : list byte :=
  [byte_of_Z (Z.shiftr v 8); byte_of_Z v].

Definition PutUint32 (v : Z) : list byte :=
  [byte_of_Z (Z.shiftr v 24); byte_of_Z (Z.shiftr v 16);
   byte_of_Z (Z.shiftr v 8); byte_of_Z v].

Definition Uint16 (b : list byte) : Outcome Z :=
  match b with
  | b0 :: b1 :: _ => Ret (Z.lor (Z_of_byte b1) (Z.shiftl (Z_of_byte b0) 8))
  | _ => Crash IndexOutOfRange
  end.

Definition Uint32 (b : list byte) : Outcome Z :=
  match b with
  | b0 :: b1 :: b2 :: b3 :: _ =>
      Ret (Z.lor (Z.lor (Z.lor (Z_of_byte b3) (Z.shiftl (Z_of_byte b2) 8))
                        (Z.shiftl (Z_of_byte b1) 16))
                 (Z.shiftl (Z_of_byte b0) 24))
  | _ => Crash IndexOutOfRange
  end.

(** *** net.Conn

    [incoming] lists what the peer's stream will deliver, one chunk per
    successful [Read] of the operating system's socket; when it is empty
    the stream has ended.  [outgoing] collects the arguments of the
    successful [Write] calls. *)

Inductive error := EOF | ErrUnexpectedEOF | ErrClosed.

Record Conn := mkConn {
  incoming : list (list byte);
  outgoing : list (list byte);
  closed : bool
}.

(** [conn.Read(p)] with [len(p) = n] *)
Definition conn_Read (n : Z) (c : Conn) : list byte * option error * Conn :=
  if closed c then ([], Some ErrClosed, c)
  else match incoming c with
       | [] => ([], Some EOF, c)
       | ch :: rest =>
           (firstn (Z.to_nat n) ch, None,
            mkConn (if n <? len ch then skipn (Z.to_nat n) ch :: rest else rest)
                   (outgoing c) (closed c))
       end.

(** [conn.Write(p)] *)
Definition conn_Write (p : list byte) (c : Conn) : option error * Conn :=
  if closed c then (Some ErrClosed, c)
  else (None, mkConn (incoming c) (outgoing c ++ [p]) (closed c)).

(** [conn.Close()] *)
Definition conn_Close (c : Conn) : Conn :=
  mkConn (incoming c) (outgoing c) true.

(** *** bufio.Reader

    The reader is its unread buffered bytes; the connection it wraps is
    threaded next to it. *)

Definition defaultBufSize : Z := 4096.

(** [b.Read(p)] with [len(p) = n]: the bytes come from the buffer if it
    holds any, otherwise from at most one [Read] of the connection, so
    fewer than [n] bytes may be returned. *)
Definition bufio_Read (n : Z) (b : list byte) (c : Conn)
  : list byte * option error * list byte * Conn :=
  if n =? 0 then ([], None, b, c)
  else match b with
       | [] =>
           if defaultBufSize <=? n then
             let '(d, e, c') := conn_Read n c in (d, e, [], c')
           else
             let '(d, e, c') := conn_Read defaultBufSize c in
             match d with
             | [] => ([], e, [], c')
             | _ => (firstn (Z.to_nat n) d, None, skipn (Z.to_nat n) d, c')
             end
       | _ => (firstn (Z.to_nat n) b, None, skipn (Z.to_nat n) b, c)
       end.

(** [b.ReadBytes(delim)]: reads until the first occurrence of [delim] and
    returns the bytes up to and including it; if the stream ends first,
    the bytes read so far and the error.  How the pending bytes are split
    between the buffer and the connection cannot be observed through
    [ReadBytes], so a chunk is moved to the buffer whole. *)
Fixpoint split_delim (delim : byte) (l : list byte) : option (list byte * list byte) :=
  match l with
  | [] => None
  | x :: l' =>
      if decide (x = delim) then Some ([x], l')
      else match split_delim delim l' with
           | Some (pre, post) => Some (x :: pre, post)
           | None => None
           end
  end.

Fixpoint readBytes_chunks (delim : byte) (acc : list byte) (chunks : list (list byte))
  : list byte * option error * list byte * list (list byte) :=
  match chunks with
  | [] => (acc, Some EOF, [], [])
  | ch :: rest =>
      match split_delim delim ch with
      | Some (pre, post) => (acc ++ pre, None, post, rest)
      | None => readBytes_chunks delim (acc ++ ch) rest
      end
  end.

Definition bufio_ReadBytes (delim : byte) (b : list byte) (c : Conn)
  : list byte * option error * list byte * Conn :=
  match split_delim delim b with
  | Some (pre, post) => (pre, None, post, c)
  | None =>
      if closed c then (b, Some ErrClosed, [], c)
      else
        let '(d, e, b', rest) := readBytes_chunks delim b (incoming c) in
        (d, e, b', mkConn rest (outgoing c) (closed c))
  end.

(** *** io.ReadFull

    [for n < min && err == nil { nn, err = r.Read(buf[n:]); n += nn }],
    then the error is dropped when [n >= min] and [EOF] after some bytes
    becomes [ErrUnexpectedEOF]. *)
Fixpoint readAtLeast_loop (fuel : nat) (min : Z) (acc b : list byte) (c : Conn)
  : list byte * option error * list byte * Conn :=
  if len acc <? min then
    match fuel with
    | O => (acc, Some ErrUnexpectedEOF, b, c)
    | S fuel' =>
        let '(d, e, b', c') := bufio_Read (min - len acc) b c in
        match e with
        | None => readAtLeast_loop fuel' min (acc ++ d) b' c'
        | Some err =>
            let n := acc ++ d in
            (n,
             (if min <=? len n then None
              else match err with
                   | EOF => if 0 <? len n then Some ErrUnexpectedEOF else Some EOF
                   | _ => Some err
                   end),
             b', c')
        end
    end
  else (acc, None, b, c).

Definition io_ReadFull (n : Z) (b : list byte) (c : Conn)
  : list byte * option error * list byte * Conn :=
  readAtLeast_loop (Z.to_nat n + length (incoming c)) n [] b c.

(** *** strings and bytes *)

(** [strings.ReplaceAll(s, "\n", "")] *)
Definition remove_byte (x : byte) (s : list byte) : list byte :=
  filter (fun y => y <> x) s.

(** [bytes.ReplaceAll(s, []byte{x}, new)] *)
Definition replace_byte (x : byte) (new : list byte) (s : list byte) : list byte :=
  flat_map (fun y => if decide (y = x) then new else [y]) s.

(** [strings.Trim(s, "\x00")]: leading and trailing bytes equal to [x]
    are removed. *)
Fixpoint trim_left (x : byte) (s : list byte) : list byte :=
  match s with
  | y :: s' => if decide (y = x) then trim_left x s' else s
  | [] => []
  end.

Definition trim (x : byte) (s : list byte) : list byte :=
  rev (trim_left x (rev (trim_left x s))).

End Go.


(** ** Package client, length-prefixed frames (src/client/client.go) *)

Module Client.
Import Go.

Definition FRAME_TYPE_MESSAGE : byte := x5a.        (* 90 *)
Definition FRAME_TYPE_HEARTBEAT : byte := x5b.      (* 91 *)
Definition FRAME_TYPE_HEARTBEAT_ACK : byte := x5c.  (* 92 *)

Definition HEARTBEAT_INTERVAL : Z := 10.

(** [type MessageHandler func(data string)] *)
Definition MessageHandler := option nat.

Record Socket := mkSocket {
  Id : gostring;
  connection : Conn;
  events : gmap (list byte) MessageHandler;
  connected : bool;
  lastHeartbeatAck : Z
}.

Definition set_connection (s : Socket) (c : Conn) : Socket :=
  mkSocket (Id s) c (events s) (connected s) (lastHeartbeatAck s).
Definition set_events (s : Socket) (m : gmap (list byte) MessageHandler) : Socket :=
  mkSocket (Id s) (connection s) m (connected s) (lastHeartbeatAck s).
Definition set_connected (s : Socket) (b : bool) : Socket :=
  mkSocket (Id s) (connection s) (events s) b (lastHeartbeatAck s).
Definition set_lastHeartbeatAck (s : Socket) (t : Z) : Socket :=
  mkSocket (Id s) (connection s) (events s) (connected s) t.

(** What the session does to the application: [Envoke name data] is a
    call of [s.envokeEvent(name, data)], [Call h data] the call
    [handler(data)] of the handler [h] it found. *)
Inductive Event :=
| Envoke (name data : gostring)
| Call (h : nat) (data : gostring).

Definition On (s : Socket) (event : gostring) (callback : MessageHandler) : Socket :=
  set_events s (<[event := callback]> (events s)).

Definition Off (s : Socket) (event : gostring) : Socket :=
  match events s !! event with
  | Some _ => set_events s (delete event (events s))
  | None => s
  end.

Definition envokeEvent (s : Socket) (name data : gostring) : Outcome (list Event) :=
  match events s !! name with
  | Some (Some h) => Ret [Envoke name data; Call h data]
  | Some None => Crash NilFuncCall
  | None => Ret [Envoke name data]
  end.

Definition disconnect (s : Socket) : Outcome (Socket * list Event) :=
  if negb (connected s) then
    Ret (set_connection s (conn_Close (connection s)), [])
  else
    let s1 := set_connected s false in
    let s2 := set_connection s1 (conn_Close (connection s1)) in
    evs ← envokeEvent s2 (str "disconnection") [];
    Ret (s2, evs).

Definition Connected (s : Socket) : bool := connected s.

Definition Disconnect (s : Socket) : Outcome (Socket * list Event) := disconnect s.

(** [buildFrame]; its error result is always nil. *)
Definition buildFrame (data : list byte) (frameType : byte) : list byte :=
  let payload := [] ++ data in
  let headerBuff := PutUint32 (uint32 (len payload + 1)) in
  let headerBuff := headerBuff ++ [frameType] in
  ([] ++ headerBuff) ++ payload.

(** [raw]; a failed [Write] is ignored. *)
Definition raw (s : Socket) (data : list byte) (frameType : byte) : Socket :=
  if negb (connected s) then s
  else
    let frame := buildFrame data frameType in
    set_connection s (snd (conn_Write frame (connection s))).

Definition emit (s : Socket) (event : gostring) (data : list byte) : Socket :=
  if negb (connected s) then s
  else if len event >? 2 ^ 16 - 2 then s
  else
    let eventBytes := event in
    let eventLen := len eventBytes in
    let payload := PutUint16 (uint16 eventLen) in
    let payload := payload ++ eventBytes in
    let payload := payload ++ data in
    let headerBuff := PutUint32 (uint32 (len payload + 1)) in
    let headerBuff := headerBuff ++ [FRAME_TYPE_MESSAGE] in
    let frameBuff := ([] ++ headerBuff) ++ payload in
    set_connection s (snd (conn_Write frameBuff (connection s))).

Definition send (s : Socket) (event data : gostring) : Socket := emit s event data.

(** [Send], [SendSync], [Emit] and [EmitSync] differ only in whether the
    write runs in a goroutine of its own. *)
Definition SendSync := send.
Definition Send := send.
Definition Emit := emit.
Definition EmitSync := emit.

(** [int(2 + eventLen)] is computed on [uint16] and wraps around. *)
Definition processMessageFrame (s : Socket) (frame : list byte) : Outcome (list Event) :=
  let frameLen := len frame in
  if frameLen >? 3 then
    hd ← slice frame 0 2;
    eventLen ← Uint16 hd;
    let eventEnd := uint16 (2 + eventLen) in
    eventName ← slice frame 2 eventEnd;
    data ← slice frame eventEnd frameLen;
    envokeEvent s eventName data
  else Ret [].

Definition failed (e : option error) : bool :=
  match e with Some _ => true | None => false end.

(** The frame switch of [listen]; [now] is [time.Now()] in milliseconds. *)
Definition dispatchFrame (now : Z) (s : Socket) (payload : list byte)
  : Outcome (Socket * list Event) :=
  frameType ← index payload 0;
  if decide (frameType = FRAME_TYPE_MESSAGE) then
    evs ← processMessageFrame s (drop 1 payload);
    Ret (s, evs)
  else if decide (frameType = FRAME_TYPE_HEARTBEAT) then
    Ret (raw s [] FRAME_TYPE_HEARTBEAT_ACK, [])
  else if decide (frameType = FRAME_TYPE_HEARTBEAT_ACK) then
    Ret (set_lastHeartbeatAck s now, [])
  else Crash FatalLog.

(** The [for] loop of [listen]: [b] is the [bufio.Reader] created on
    entry, [clock i] the time at the [i]-th iteration. *)
Fixpoint listen_loop (fuel : nat) (clock : nat -> Z) (i : nat) (s : Socket) (b : list byte)
  : Outcome (Socket * list Event) :=
  match fuel with
  | O => Crash StillRunning
  | S fuel' =>
      if negb (connected s) then Ret (s, [])
      else
        let '(size, err, b1, c1) := bufio_Read 4 b (connection s) in
        let s1 := set_connection s c1 in
        if failed err || negb (len size =? 4) then Ret (s1, [])
        else
          sizeVal ← Uint32 size;
          let '(payload, err, b2, c2) := io_ReadFull sizeVal b1 c1 in
          let s2 := set_connection s1 c2 in
          if failed err || negb (len payload =? sizeVal) then Ret (s2, [])
          else
            '(s3, evs) ← dispatchFrame (clock i) s2 payload;
            '(s4, evs') ← listen_loop fuel' clock (S i) s3 b2;
            Ret (s4, evs ++ evs')
  end.

Definition listen (clock : nat -> Z) (s : Socket) : Outcome (Socket * list Event) :=
  '(s1, evs) ← listen_loop (S (length (concat (incoming (connection s))))) clock 0 s [];
  '(s2, evs') ← disconnect s1;
  Ret (s2, evs ++ evs').

(** The test at the end of a heartbeat round. *)
Definition heartbeatExpired (lastAck start : Z) : bool :=
  (lastAck =? 0) || (int64 (lastAck - start) >? HEARTBEAT_INTERVAL * 1000).

Inductive Round := Disconnected | Dead | Alive.

(** One iteration of the loop of [startHeartbeat]: [start] is the time
    taken before the probe is sent, [during] what the other goroutines do
    to the session while this one sleeps. *)
Definition heartbeatRound (start : Z) (during : Socket -> Socket) (s : Socket)
  : Socket * Round :=
  if negb (connected s) then (s, Disconnected)
  else
    let s1 := raw s [] FRAME_TYPE_HEARTBEAT in
    let s2 := during s1 in
    if negb (connected s2) then (s2, Disconnected)
    else if heartbeatExpired (lastHeartbeatAck s2) start then (s2, Dead)
    else (s2, Alive).

(** [startHeartbeat] over the rounds the schedule describes; every way
    out of the loop ends in [s.disconnect()]. *)
Fixpoint startHeartbeat (rounds : list (Z * (Socket -> Socket))) (s : Socket)
  : Outcome (Socket * list Event) :=
  match rounds with
  | [] => Crash StillRunning
  | (start, during) :: rest =>
      match heartbeatRound start during s with
      | (s', Alive) => startHeartbeat rest s'
      | (s', _) => disconnect s'
      end
  end.

(** [New]: [dial] is the result of [net.Dial]. *)
Definition New (dial : option Conn) : option Socket :=
  match dial with
  | None => None
  | Some conn => Some (mkSocket [] conn ∅ true 0)
  end.

(** [Listen] (the heartbeat goroutine it starts is [startHeartbeat]). *)
Definition Listen (clock : nat -> Z) (s : Socket) : Outcome (Socket * list Event) :=
  evs ← envokeEvent s (str "connection") [];
  '(s', evs') ← listen clock s;
  Ret (s', evs ++ evs').

End Client.

(** ** Package server, newline-delimited frames (src/unnamed/part_000) *)

Module Server.
Import Go.

Definition FRAME_TYPE_MESSAGE : byte := x5a.        (* 90 *)
Definition FRAME_TYPE_HEARTBEAT : byte := x5b.      (* 91 *)
Definition FRAME_TYPE_HEARTBEAT_ACK : byte := x5c.  (* 92 *)

(** [type ConnectionHandler func(socket *Socket)] *)
Definition ConnectionHandler := option nat.
(** [type MessageHandler func(data string)] *)
Definition MessageHandler := option nat.

Record Socket := mkSocket {
  Id : gostring;
  connection : Conn;
  events : gmap (list byte) MessageHandler;
  connected : bool;
  lastHeartbeatAck : Z
}.

(** The [server] field of a socket is the [Server] passed along with it;
    [sockets] holds the session objects themselves under their ids. *)
Record Server := mkServer {
  address : gostring;
  sockets : gmap (list byte) Socket;
  connectEvent : ConnectionHandler;
  disconnectEvent : ConnectionHandler
}.

Definition set_connection (s : Socket) (c : Conn) : Socket :=
  mkSocket (Id s) c (events s) (connected s) (lastHeartbeatAck s).
Definition set_events (s : Socket) (m : gmap (list byte) MessageHandler) : Socket :=
  mkSocket (Id s) (connection s) m (connected s) (lastHeartbeatAck s).
Definition set_connected (s : Socket) (b : bool) : Socket :=
  mkSocket (Id s) (connection s) (events s) b (lastHeartbeatAck s).
Definition set_lastHeartbeatAck (s : Socket) (t : Z) : Socket :=
  mkSocket (Id s) (connection s) (events s) (connected s) t.
Definition set_sockets (srv : Server) (m : gmap (list byte) Socket) : Server :=
  mkServer (address srv) m (connectEvent srv) (disconnectEvent srv).

Inductive Event :=
| CallConnect (h : nat) (id : gostring)      (* s.connectEvent(socket) *)
| CallDisconnect (h : nat) (id : gostring)   (* s.server.disconnectEvent(s) *)
| Envoke (name data : gostring)              (* s.envokeEvent(name, data) *)
| Call (h : nat) (data : gostring).          (* handler(data) *)

(** [uid] is the value of [uuid.New().String()]. *)
Definition addSocket (srv : Server) (conn : Conn) (uid : gostring) : Server * Socket :=
  let sock := mkSocket uid conn ∅ true 0 in
  (set_sockets srv (<[uid := sock]> (sockets srv)), sock).

Definition removeSocket (srv : Server) (socket : Socket) : Server * Socket :=
  match sockets srv !! Id socket with
  | Some _ =>
      (set_sockets srv (delete (Id socket) (sockets srv)), set_connected socket false)
  | None => (srv, socket)
  end.

Definition OnConnection (srv : Server) (handler : ConnectionHandler) : Server :=
  mkServer (address srv) (sockets srv) handler (disconnectEvent srv).

Definition OnDisconnection (srv : Server) (handler : ConnectionHandler) : Server :=
  mkServer (address srv) (sockets srv) (connectEvent srv) handler.

Definition On (s : Socket) (event : gostring) (callback : MessageHandler) : Socket :=
  set_events s (<[event := callback]> (events s)).

Definition Off (s : Socket) (event : gostring) : Socket :=
  match events s !! event with
  | Some _ => set_events s (delete event (events s))
  | None => s
  end.

Definition Connected (s : Socket) : bool := connected s.

Definition Disconnect (s : Socket) : Socket := set_connected s false.

Definition envokeEvent (s : Socket) (name data : gostring) : Outcome (list Event) :=
  match events s !! name with
  | Some (Some h) => Ret [Envoke name data; Call h data]
  | Some None => Crash NilFuncCall
  | None => Ret [Envoke name data]
  end.

Inductive builderror := EventNameTooLong.

(** Go's [/] and [%] truncate towards zero: [Z.quot] and [Z.rem]. *)
Definition buildMessageFrameHeader (event : gostring) (frameType : byte)
  : list byte + builderror :=
  if len event >? 2 ^ 16 - 2 then inr EventNameTooLong
  else
    let frameBuff := [] ++ [frameType] in
    let event := remove_byte x0a event in
    let eventBytes := event in
    let eventLen := len eventBytes in
    let eventBytes :=
      if Z.quot eventLen 256 =? 10 then
        eventBytes ++ repeat x00 (Z.to_nat (256 - Z.rem eventLen 256))
      else if Z.rem eventLen 256 =? 10 then eventBytes ++ [x00]
      else eventBytes in
    let eventLenBuff := PutUint16 (uint16 (len eventBytes)) in
    let frameBuff := frameBuff ++ eventLenBuff in
    let frameBuff := frameBuff ++ eventBytes in
    inl frameBuff.

Definition buildMessageFrame (event : gostring) (data : list byte) (frameType : byte)
  : list byte + builderror :=
  match buildMessageFrameHeader event frameType with
  | inr err => inr err
  | inl frame =>
      let frame := frame ++ replace_byte x0a [x5c; x5c; x00] data in
      let frame := frame ++ [x0a] in
      inl frame
  end.

(** [buildFrame]; its error result is always nil. *)
Definition buildFrame (data : list byte) (frameType : byte) : list byte :=
  let frame := [] ++ [frameType] in
  let frame := frame ++ replace_byte x0a [x5c; x5c; x00] data in
  frame ++ [x0a].

Definition send (socket : Socket) (event : gostring) (data : list byte) (frameType : byte)
  : Socket :=
  if negb (connected socket) then socket
  else match buildMessageFrame event data frameType with
       | inr _ => socket
       | inl frame =>
           set_connection socket (snd (conn_Write frame (connection socket)))
       end.

Definition raw (socket : Socket) (data : list byte) (frameType : byte) : Socket :=
  if negb (connected socket) then socket
  else
    let frame := buildFrame data frameType in
    set_connection socket (snd (conn_Write frame (connection socket))).

Definition emit (socket : Socket) (event data : gostring) : Socket :=
  send socket event data FRAME_TYPE_MESSAGE.

Definition Send (s : Socket) (event : gostring) (data : list byte) : Socket :=
  send s event data FRAME_TYPE_MESSAGE.

(** [Emit] runs [emit] in a goroutine, [EmitSync] inline. *)
Definition Emit (s : Socket) (event data : gostring) : Socket := emit s event data.
Definition EmitSync (s : Socket) (event data : gostring) : Socket := emit s event data.

(** [for id, socket := range s.server.sockets]: every entry is visited
    once, and the visits touch different sockets, so their order does not
    show. *)
Definition Broadcast (srv : Server) (s : Socket) (event data : gostring) : Server :=
  set_sockets srv
    (map_imap (fun id socket =>
                 Some (if decide (id = Id s) then socket else Emit socket event data))
              (sockets srv)).

Definition BroadcastSync := Broadcast.

(** [Server.Emit] and [Server.EmitSync] *)
Definition ServerEmit (srv : Server) (event data : gostring) : Server :=
  set_sockets srv ((fun socket => Emit socket event data) <$> sockets srv).

(** The unescaping loop of [listen]: [i] runs from 0 to [len(data) - 1]. *)
Fixpoint unescape_loop (todo : nat) (data : list byte) (i skip : Z) (filtered : list byte)
  : Outcome (list byte) :=
  match todo with
  | O => Ret filtered
  | S todo' =>
      if skip >? 1 then unescape_loop todo' data (i + 1) (skip - 1) filtered
      else
        d0 ← index data i;
        escape ←
          (if bool_decide (d0 = x5c) && negb (i =? len data - 2) then
             d1 ← index data (i + 1);
             if bool_decide (d1 = x5c) then
               d2 ← index data (i + 2);
               Ret (bool_decide (d2 = x00))
             else Ret false
           else Ret false);
        if (escape : bool) then unescape_loop todo' data (i + 1) 2 filtered
        else if skip =? 1 then
          unescape_loop todo' data (i + 1) (skip - 1) (filtered ++ [x0a])
        else unescape_loop todo' data (i + 1) skip (filtered ++ [d0])
  end.

Definition unescape (data : list byte) : Outcome (list byte) :=
  unescape_loop (length data) data 0 0 [].

(** The goroutine [listen] starts for every frame read.  [3+eventLen] is
    computed on [uint16] where it is a slice bound. *)
Definition handleFrame (now : Z) (s : Socket) (frame : list byte)
  : Outcome (Socket * list Event) :=
  if negb (connected s) then Ret (s, [])
  else
    let frameLen := len frame in
    if frameLen >? 0 then
      frameType ← index frame 0;
      if bool_decide (frameType = FRAME_TYPE_MESSAGE) then
        if frameLen >? 2 then
          hd ← slice frame 1 3;
          eventLen ← Uint16 hd;
          name ← slice frame 3 (uint16 (3 + eventLen));
          let eventName := trim x00 name in
          if frameLen >? 3 + eventLen then
            data ← slice frame (uint16 (3 + eventLen)) (frameLen - 1);
            filtered ← unescape data;
            evs ← envokeEvent s eventName filtered;
            Ret (s, evs)
          else Ret (s, [])
        else Ret (s, [])
      else if bool_decide (frameType = FRAME_TYPE_HEARTBEAT) then
        Ret (raw s [] FRAME_TYPE_HEARTBEAT_ACK, [])
      else if bool_decide (frameType = FRAME_TYPE_HEARTBEAT_ACK) then
        Ret (set_lastHeartbeatAck s now, [])
      else Ret (s, [])
    else Ret (s, []).

Definition failed (e : option error) : bool :=
  match e with Some _ => true | None => false end.

Fixpoint listen_loop (fuel : nat) (clock : nat -> Z) (i : nat) (s : Socket) (b : list byte)
  : Outcome (Socket * list Event) :=
  match fuel with
  | O => Crash StillRunning
  | S fuel' =>
      if negb (connected s) then Ret (s, [])
      else
        let '(recv, err, b1, c1) := bufio_ReadBytes x0a b (connection s) in
        let s1 := set_connection s c1 in
        if failed err then Ret (s1, [])
        else
          '(s2, evs) ← handleFrame (clock i) s1 recv;
          '(s3, evs') ← listen_loop fuel' clock (S i) s2 b1;
          Ret (s3, evs ++ evs')
  end.

(** [f(x)] for a func value [f] *)
Definition invoke (f : option nat) (ev : nat -> Event) : Outcome (list Event) :=
  match f with
  | Some h => Ret [ev h]
  | None => Crash NilFuncCall
  end.

Definition listen (clock : nat -> Z) (srv : Server) (s : Socket)
  : Outcome (Server * Socket * list Event) :=
  '(s1, evs) ← listen_loop (S (length (concat (incoming (connection s))))) clock 0 s [];
  let s2 := set_connection s1 (conn_Close (connection s1)) in
  let '(srv', s3) := removeSocket srv s2 in
  evs' ← invoke (disconnectEvent srv') (fun h => CallDisconnect h (Id s3));
  Ret (srv', s3, evs ++ evs').

(** [handleConnection]; the heartbeat goroutine it starts is
    [startHeartbeat]. *)
Definition handleConnection (clock : nat -> Z) (srv : Server) (conn : Conn) (uid : gostring)
  : Outcome (Server * Socket * list Event) :=
  let '(srv1, socket) := addSocket srv conn uid in
  evs ← invoke (connectEvent srv1) (fun h => CallConnect h (Id socket));
  '(srv2, socket', evs') ← listen clock srv1 socket;
  Ret (srv2, socket', evs ++ evs').

Definition heartbeatExpired (lastAck start : Z) : bool :=
  (lastAck =? 0) || (int64 (lastAck - start) >? 5000).

Inductive Round := Disconnected | Dead | Alive.

(** One iteration of the loop of [startHeartbeat]; a dead session only
    has its flag cleared. *)
Definition heartbeatRound (start : Z) (during : Socket -> Socket) (s : Socket)
  : Socket * Round :=
  if negb (connected s) then (s, Disconnected)
  else
    let s1 := raw s [] FRAME_TYPE_HEARTBEAT in
    let s2 := during s1 in
    if negb (connected s2) then (s2, Disconnected)
    else if heartbeatExpired (lastHeartbeatAck s2) start
         then (set_connected s2 false, Dead)
         else (s2, Alive).

Definition noop : nat := 0%nat.

(** [New]: [listening] tells whether [net.Listen] succeeded. *)
Definition New (addr : gostring) (listening : bool) : option Server :=
  if listening then Some (mkServer addr ∅ (Some noop) (Some noop))
  else None.

End Server.

(** ** Package client, delimiter-character text protocol (src/unnamed/part_001) *)

Module LegacyClient.
Import Go.

Definition ConnectionHandler := option nat.
Definition MessageHandler := option nat.

Record Socket := mkSocket {
  connection : Conn;
  events : gmap (list byte) MessageHandler;
  connectEvent : ConnectionHandler;
  disconnectEvent : ConnectionHandler
}.

Inductive Event :=
| CallConnect (h : nat)
| CallDisconnect (h : nat)
| Call (h : nat) (data : gostring).

Definition invoke (f : option nat) (ev : nat -> Event) : Outcome (list Event) :=
  match f with
  | Some h => Ret [ev h]
  | None => Crash NilFuncCall
  end.

Definition On (s : Socket) (event : gostring) (callback : MessageHandler) : Socket :=
  mkSocket (connection s) (<[event := callback]> (events s))
           (connectEvent s) (disconnectEvent s).

Definition OnConnect (s : Socket) (handler : ConnectionHandler) : Socket :=
  mkSocket (connection s) (events s) handler (disconnectEvent s).

Definition OnDisconnect (s : Socket) (handler : ConnectionHandler) : Socket :=
  mkSocket (connection s) (events s) (connectEvent s) handler.

(** The handler lookup and call inside [socketReceiver], for a message
    already split into its event and data. *)
Definition dispatch (s : Socket) (event data : gostring) : Outcome (list Event) :=
  match events s !! event with
  | Some handler => invoke handler (fun h => Call h data)
  | None => Ret []
  end.

(** [socketReceiver] once its read loop has handled [messages]. *)
Fixpoint dispatch_all (s : Socket) (messages : list (gostring * gostring))
  : Outcome (list Event) :=
  match messages with
  | [] => Ret []
  | (event, data) :: rest =>
      evs ← dispatch s event data;
      evs' ← dispatch_all s rest;
      Ret (evs ++ evs')
  end.

Definition socketReceiver (s : Socket) (messages : list (gostring * gostring))
  : Outcome (Socket * list Event) :=
  evs ← dispatch_all s messages;
  let s' := mkSocket (conn_Close (connection s)) (events s)
                     (connectEvent s) (disconnectEvent s) in
  evs' ← invoke (disconnectEvent s') CallDisconnect;
  Ret (s', evs ++ evs').

Definition Listen (s : Socket) (messages : list (gostring * gostring))
  : Outcome (Socket * list Event) :=
  evs ← invoke (connectEvent s) CallConnect;
  '(s', evs') ← socketReceiver s messages;
  Ret (s', evs ++ evs').

Definition noop : nat := 0%nat.

(** [New]: [dial] is the result of [net.Dial]. *)
Definition New (dial : option Conn) : option Socket :=
  match dial with
  | None => None
  | Some conn => Some (mkSocket conn ∅ (Some noop) (Some noop))
  end.

End LegacyClient.

(** ** Notions used to state the properties *)

Module Props.
Import Go.

(** The stream a reader still has before it: what it has buffered, then
    what the connection will deliver. *)
Definition pending (b : list byte) (c : Conn) : list byte :=
  b ++ concat (incoming c).

(** The number a byte sequence denotes, most significant byte first. *)
Definition be_value (bs : list byte) : Z :=
  fold_left (fun acc b => acc * 256 + Z_of_byte b) bs 0.

(** What a run did to the application, without the final state. *)
Definition trace {S E} (o : Outcome (S * list E)) : Outcome (list E) :=
  '(_, evs) ← o; Ret evs.



(** The frame [Client.emit] writes for a name it accepts. *)
Definition messageFrame (event data : list byte) : list byte :=
  Client.buildFrame (PutUint16 (len event) ++ event ++ data) Client.FRAME_TYPE_MESSAGE.

(** A client session as [Client.New] returns it, on a connection that will
    deliver [chunks]. *)
Definition dialed (chunks : list (list byte)) : Client.Socket :=
  Client.mkSocket [] (mkConn chunks [] false) ∅ true 0.

(** What a receiving client makes of what a sending client writes for
    [(event, data)], each write arriving in one piece. *)
Definition decode_encode (event data : gostring) : Outcome (list Client.Event) :=
  let wire := outgoing (Client.connection (Client.emit (dialed []) event data)) in
  trace (Client.listen (fun _ => 0) (dialed wire)).


(** A server with the callbacks [Server.New] installs, and a session as
    [addSocket] creates it on a connection that will deliver [chunks]. *)
Definition served : Server.Server :=
  Server.mkServer [] ∅ (Some Server.noop) (Some Server.noop).

Definition accepted (chunks : list (list byte)) : Server.Socket :=
  Server.mkSocket (str "id") (mkConn chunks [] false) ∅ true 0.

(** What the server's read loop makes of what the server's send path
    writes for [(event, data)]: the newline-delimited codec. *)
Definition server_decode_encode (event data : gostring) : Outcome (list Server.Event) :=
  let wire := outgoing (Server.connection (Server.emit (accepted []) event data)) in
  trace (Server.listen (fun _ => 0) served (accepted wire)).

(** A run that does not end in the call of a nil func. *)
Definition nil_safe {A} (o : Outcome A) : Prop := o <> Crash NilFuncCall.

(** A run that ends: its loops stop by themselves. *)
Definition terminates {A} (o : Outcome A) : Prop := o <> Crash StillRunning.

(** [o] does not end in the crash [x], and what it returns satisfies [P]. *)
Definition avoids {A} (x : crash) (P : A -> Prop) (o : Outcome A) : Prop :=
  match o with
  | Ret a => P a
  | Crash c => c <> x
  end.

(** The two ends that [avoids] is used to exclude. *)
Definition excluded (x : crash) : Prop := x = NilFuncCall \/ x = StillRunning.

End Props.

(** ** The send path of the text protocol (src/unnamed/part_001) *)

Module LegacyWire.
Import Go LegacyClient.

(** [const DELIMITER], two bytes in UTF-8 *)
Definition DELIMITER : gostring := [xc2; xa7].

(** [strings.Contains(s, DELIMITER)] *)
Fixpoint contains_delimiter (s : list byte) : bool :=
  match s with
  | [] => false
  | a :: s1 =>
      match s1 with
      | b :: _ => (bool_decide (a = xc2) && bool_decide (b = xa7)) || contains_delimiter s1
      | [] => false
      end
  end.

(** [strings.ReplaceAll(s, DELIMITER, new)]: the occurrences are replaced
    from left to right, without overlap. *)
Fixpoint replace_delimiter (new s : list byte) : list byte :=
  match s with
  | [] => []
  | a :: s1 =>
      match s1 with
      | b :: s2 =>
          if bool_decide (a = xc2) && bool_decide (b = xa7)
          then new ++ replace_delimiter new s2
          else a :: replace_delimiter new s1
      | [] => [a]
      end
  end.

(** The two rewritings [emit] applies to the data and to the event. *)
Definition escaped (s : gostring) : gostring :=
  let s := if contains_delimiter s then replace_delimiter ([x5c] ++ DELIMITER) s else s in
  if bool_decide (x00 ∈ s) then replace_byte x00 [x01] s else s.

Definition emit (socket : Socket) (event data : gostring) : Socket :=
  let data := escaped data in
  let event := escaped event in
  let packet := event ++ DELIMITER ++ data in
  let packet := packet ++ [x00] in
  mkSocket (snd (conn_Write packet (connection socket))) (events socket)
           (connectEvent socket) (disconnectEvent socket).

(** [Emit] runs [emit] in a goroutine, [EmitSync] inline. *)
Definition Emit (s : Socket) (event data : gostring) : Socket := emit s event data.
Definition EmitSync (s : Socket) (event data : gostring) : Socket := emit s event data.

End LegacyWire.

(** ** Notions used to state the properties of whole runs *)

Module Scenario.
Import Go.

(** [s.envokeEvent] for each message of a list, in order. *)
Fixpoint envoke_all (s : Client.Socket) (ms : list (gostring * gostring))
  : Outcome (list Client.Event) :=
  match ms with
  | [] => Ret []
  | (event, data) :: ms' =>
      evs ← Client.envokeEvent s event data;
      evs' ← envoke_all s ms';
      Ret (evs ++ evs')
  end.

(** A message the length-prefixed codec carries unchanged and whose frame
    fits the reader's buffer. *)
Definition carried (m : gostring * gostring) : Prop :=
  len (fst m) <= 65533 /\ 2 <= len (fst m) + len (snd m) /\
  len (fst m) + len (snd m) + 7 <= defaultBufSize.

(** A heartbeat round in which the acknowledgement of the probe arrives:
    the read loop stores its time [t] while the monitor sleeps. *)
Definition acked_round (p : Z * Z) : Z * (Client.Socket -> Client.Socket) :=
  (fst p, fun s => Client.set_lastHeartbeatAck s (snd p)).

(** The acknowledgement of the round comes after the probe and within the
    interval. *)
Definition in_time (p : Z * Z) : Prop :=
  0 < snd p < 2 ^ 62 /\ fst p <= snd p <= fst p + Client.HEARTBEAT_INTERVAL * 1000.

(** Every session of the set is stored under its own id. *)
Definition keyed (srv : Server.Server) : Prop :=
  forall id s, Server.sockets srv !! id = Some s -> Server.Id s = id.




(** The three bytes that stand for a newline in the data of a frame. *)
Definition is_escape (a b c : byte) : bool :=
  bool_decide (a = x5c) && bool_decide (b = x5c) && bool_decide (c = x00).

(** Reading left to right, every escape sequence becomes a newline. *)
Fixpoint decoded (l : list byte) : list byte :=
  match l with
  | [] => []
  | a :: l1 =>
      match l1 with
      | b :: l2 =>
          match l2 with
          | c :: l3 => if is_escape a b c then x0a :: decoded l3 else a :: decoded l1
          | [] => a :: decoded l1
          end
      | [] => a :: decoded l1
      end
  end.


Definition ends_backslash (l : list byte) : bool :=
  match last l with
  | Some b => bool_decide (b = x5c)
  | None => false
  end.

(** The frame the server's send path writes for a message. *)
Definition wire (m : gostring * gostring) : list byte :=
  match Server.buildMessageFrame (fst m) (snd m) Server.FRAME_TYPE_MESSAGE with
  | inl frame => frame
  | inr _ => []
  end.




End Scenario.

(** * Properties *)

(** ** Bytes and big-endian numbers *)

Section Bytes.
Import Go.

Lemma Z_of_byte_range b : 0 <= Z_of_byte b < 256.
Proof.
  unfold Z_of_byte. pose proof (Byte.to_N_bounded b). lia.
Qed.

Lemma Z_of_byte_of_Z z : Z_of_byte (byte_of_Z z) = z mod 256.
Proof.
  unfold Z_of_byte, byte_of_Z.
  assert (Hr : 0 <= z mod 256 < 256) by (apply Z.mod_pos_bound; lia).
  pose proof (Byte.to_of_N_option_map (Z.to_N (z mod 256))) as H.
  destruct (Byte.of_N (Z.to_N (z mod 256))) as [b|] eqn:E; simpl in H.
  - destruct (N.leb_spec (Z.to_N (z mod 256)) 255); [|discriminate].
    injection H as ->. lia.
  - destruct (N.leb_spec (Z.to_N (z mod 256)) 255); [discriminate|]. lia.
Qed.

Lemma byte_of_Z_of_byte b : byte_of_Z (Z_of_byte b) = b.
Proof.
  unfold byte_of_Z. rewrite Z.mod_small by apply Z_of_byte_range.
  unfold Z_of_byte. rewrite N2Z.id, Byte.of_to_N. reflexivity.
Qed.

Lemma lor_shiftl_add a b n :
  0 <= n -> 0 <= a < 2 ^ n -> Z.lor a (Z.shiftl b n) = a + b * 2 ^ n.
Proof.
  intros Hn Ha.
  assert (Hland : Z.land a (Z.shiftl b n) = 0).
  { apply Z.bits_inj'. intros i Hi.
    rewrite Z.land_spec, Z.bits_0.
    destruct (Z.lt_ge_cases i n) as [Hlt|Hge].
    - rewrite (Z.shiftl_spec_low b n i Hlt). apply andb_false_r.
    - replace a with (a mod 2 ^ n) by (apply Z.mod_small; lia).
      rewrite Z.mod_pow2_bits_high by lia. reflexivity. }
  rewrite <- Z.lxor_lor by exact Hland.
  rewrite <- Z.add_nocarry_lxor by exact Hland.
  rewrite Z.shiftl_mul_pow2 by lia. reflexivity.
Qed.

Lemma Uint16_PutUint16 v rest :
  0 <= v < 2 ^ 16 -> Uint16 (PutUint16 v ++ rest) = Ret v.
Proof.
  intros Hv. unfold PutUint16, Uint16. simpl. f_equal.
  rewrite !Z_of_byte_of_Z.
  rewrite lor_shiftl_add; [|lia|apply Z.mod_pos_bound; lia].
  rewrite Z.shiftr_div_pow2 by lia.
  change (2 ^ 8) with 256. change (2 ^ 16) with 65536 in Hv.
  rewrite (Z.mod_small (v / 256)).
  - pose proof (Z.div_mod v 256). lia.
  - split; [apply Z.div_pos; lia|apply Z.div_lt_upper_bound; lia].
Qed.

Lemma Uint32_PutUint32 v rest :
  0 <= v < 2 ^ 32 -> Uint32 (PutUint32 v ++ rest) = Ret v.
Proof.
  intros Hv. unfold PutUint32, Uint32. simpl. f_equal.
  rewrite !Z_of_byte_of_Z.
  assert (Hb : forall x, 0 <= x mod 256 < 256) by (intros; apply Z.mod_pos_bound; lia).
  rewrite (lor_shiftl_add (v mod 256)); [|lia|apply Hb].
  rewrite (lor_shiftl_add _ _ 16); [|lia|].
  2:{ pose proof (Hb v). pose proof (Hb (Z.shiftr v 8)). change (2 ^ 8) with 256. change (2^16) with 65536. lia. }
  rewrite (lor_shiftl_add _ _ 24); [|lia|].
  2:{ pose proof (Hb v). pose proof (Hb (Z.shiftr v 8)). pose proof (Hb (Z.shiftr v 16)).
      change (2 ^ 8) with 256. change (2^16) with 65536. change (2^24) with 16777216. lia. }
  rewrite !Z.shiftr_div_pow2 by lia.
  change (2 ^ 8) with 256. change (2^16) with 65536. change (2^24) with 16777216.
  change (2 ^ 32) with 4294967296 in Hv.
  Z.div_mod_to_equations. lia.
Qed.
End Bytes.

(** ** Reading from a buffered connection *)

Section Reader.
Import Go Props.

Lemma len_app {A} (l1 l2 : list A) : len (l1 ++ l2) = len l1 + len l2.
Proof. unfold len. rewrite length_app. lia. Qed.

Lemma len_nonneg {A} (l : list A) : 0 <= len l.
Proof. unfold len. lia. Qed.

Lemma len_nil_inv {A} (l : list A) : len l = 0 -> l = [].
Proof. unfold len. destruct l; simpl; [reflexivity|lia]. Qed.

Lemma len_take {A} (l : list A) n :
  0 <= n -> len (take (Z.to_nat n) l) = Z.min n (len l).
Proof. intros. unfold len. rewrite length_take. lia. Qed.

Lemma conn_Read_open n c ch rest :
  0 <= n -> closed c = false -> incoming c = ch :: rest ->
  exists c', conn_Read n c = (take (Z.to_nat n) ch, None, c') /\
    take (Z.to_nat n) ch ++ concat (incoming c') = concat (incoming c) /\
    (length (incoming c') <= length (incoming c))%nat /\
    (ch = [] -> S (length (incoming c')) = length (incoming c)) /\
    outgoing c' = outgoing c /\ closed c' = false.
Proof.
  intros Hn Hc Hi. unfold conn_Read. rewrite Hc, Hi.
  eexists. split; [reflexivity|]. simpl.
  destruct (Z.ltb_spec n (len ch)) as [Hlt|Hge]; simpl.
  - rewrite app_assoc, take_drop. repeat split; try lia; try assumption.
    intros ->. unfold len in Hlt. simpl in Hlt. lia.
  - rewrite take_ge by (unfold len in Hge; lia).
    repeat split; try lia; assumption.
Qed.

Lemma bufio_Read_ok n b c d e b' c' :
  closed c = false -> 0 < n ->
  bufio_Read n b c = (d, e, b', c') ->
  outgoing c' = outgoing c /\ closed c' = false /\ len d <= n /\
  ((e = None /\ d ++ pending b' c' = pending b c /\
    ((d <> [] /\ (length (incoming c') <= length (incoming c))%nat) \/
     (d = [] /\ S (length (incoming c')) = length (incoming c))))
   \/ (e = Some EOF /\ d = [] /\ pending b c = [] /\ incoming c = [] /\ b' = [] /\ c' = c)).
Proof.
  intros Hc Hn. unfold bufio_Read, pending.
  destruct (Z.eqb_spec n 0) as [->|_]; [lia|].
  destruct b as [|x b].
  - destruct (incoming c) as [|ch rest] eqn:Hi.
    + unfold conn_Read. rewrite Hc, Hi.
      destruct (defaultBufSize <=? n); intros [= <- <- <- <-];
        (split; [reflexivity|]; split; [exact Hc|]; split; [unfold len; simpl; lia|];
         right; rewrite ?Hi; repeat split; reflexivity).
    + rewrite <- Hi. destruct (Z.leb_spec defaultBufSize n) as [Hbig|Hsmall].
      * destruct (conn_Read_open n c ch rest ltac:(lia) Hc Hi) as (c1 & -> & Hcat & Hlen & Hemp & Ho & Hcl).
        intros [= <- <- <- <-]. repeat split; try assumption.
        { rewrite len_take by lia. lia. }
        left. split; [reflexivity|]. split; [simpl; exact Hcat|].
        destruct (take (Z.to_nat n) ch) eqn:E.
        -- right. split; [reflexivity|]. apply Hemp.
           destruct ch; [reflexivity|]. destruct (Z.to_nat n) eqn:E'; [lia|discriminate].
        -- left. split; [discriminate|exact Hlen].
      * destruct (conn_Read_open defaultBufSize c ch rest ltac:(unfold defaultBufSize; lia) Hc Hi)
          as (c1 & -> & Hcat & Hlen & Hemp & Ho & Hcl).
        destruct (take (Z.to_nat defaultBufSize) ch) as [|y d0] eqn:E.
        -- intros [= <- <- <- <-]. repeat split; try assumption.
           { unfold len; simpl; lia. }
           left. split; [reflexivity|]. split; [simpl; exact Hcat|].
           right. split; [reflexivity|]. apply Hemp.
           destruct ch; [reflexivity|]. discriminate.
        -- intros [= <- <- <- <-]. repeat split; try assumption.
           { rewrite len_take by lia. lia. }
           left. split; [reflexivity|]. split.
           { simpl app at 3. rewrite <- Hcat.
             rewrite app_assoc, take_drop. reflexivity. }
           left. split; [|exact Hlen].
           destruct (Z.to_nat n) eqn:E'; [lia|discriminate].
  - intros [= <- <- <- <-]. repeat split; try assumption.
    { rewrite len_take by lia. lia. }
    left. split; [reflexivity|]. split.
    { rewrite app_assoc, take_drop. reflexivity. }
    left. split; [|lia].
    destruct (Z.to_nat n) eqn:E'; [lia|discriminate].
Qed.

Lemma readAtLeast_loop_ok fuel : forall min acc b c,
  closed c = false -> len acc <= min ->
  min <= len (acc ++ pending b c) ->
  (Z.to_nat (min - len acc) + length (incoming c) <= fuel)%nat ->
  exists b' c',
    readAtLeast_loop fuel min acc b c
      = (take (Z.to_nat min) (acc ++ pending b c), None, b', c') /\
    pending b' c' = drop (Z.to_nat min) (acc ++ pending b c) /\
    outgoing c' = outgoing c /\ closed c' = false.
Proof.
  induction fuel as [|fuel IH]; intros min acc b c Hc Hacc Hmin Hfuel.
  - assert (len acc = min) as Heq by lia.
    simpl. destruct (Z.ltb_spec (len acc) min); [lia|].
    exists b, c. subst min. unfold len. rewrite Nat2Z.id.
    rewrite take_app_length, drop_app_length. auto.
  - simpl. destruct (Z.ltb_spec (len acc) min) as [Hlt|Hge].
    + destruct (bufio_Read (min - len acc) b c) as [[[d e] b1] c1] eqn:ER.
      destruct (bufio_Read_ok (min - len acc) b c d e b1 c1 Hc ltac:(lia) ER)
        as (Ho & Hcl & Hd & [(-> & Hcat & Hprog)|(-> & -> & Hpend & _)]).
      * destruct (IH min (acc ++ d) b1 c1) as (b2 & c2 & Hrun & Hp & Ho2 & Hcl2).
        -- exact Hcl.
        -- rewrite len_app. lia.
        -- rewrite <- app_assoc, Hcat. exact Hmin.
        -- rewrite len_app.
           destruct Hprog as [[Hne Hl]|[-> Hl]].
           ++ assert (0 < len d) by (unfold len; destruct d; [congruence|cbn [length]; lia]). lia.
           ++ unfold len at 2. simpl. lia.
        -- exists b2, c2. rewrite Hrun, Hp, <- app_assoc, Hcat.
           repeat split; congruence.
      * rewrite Hpend, app_nil_r in Hmin. lia.
    + assert (len acc = min) as Heq by lia.
      exists b, c. subst min. unfold len. rewrite Nat2Z.id.
      rewrite take_app_length, drop_app_length. auto.
Qed.

Lemma io_ReadFull_ok n b c :
  closed c = false -> 0 <= n <= len (pending b c) ->
  exists b' c',
    io_ReadFull n b c = (take (Z.to_nat n) (pending b c), None, b', c') /\
    pending b' c' = drop (Z.to_nat n) (pending b c) /\
    outgoing c' = outgoing c /\ closed c' = false.
Proof.
  intros Hc Hn. unfold io_ReadFull.
  apply (readAtLeast_loop_ok _ n [] b c); auto.
  - unfold len; simpl; lia.
  - simpl. lia.
  - unfold len; simpl. lia.
Qed.
(** *** What a read leaves of the stream *)

Lemma conn_Read_split n c d e c' :
  conn_Read n c = (d, e, c') ->
  d ++ concat (incoming c') = concat (incoming c) /\
  outgoing c' = outgoing c /\ closed c' = closed c /\
  (e = None -> d = [] -> S (length (incoming c')) = length (incoming c) \/ n <= 0).
Proof.
  unfold conn_Read. destruct (closed c) eqn:Hc.
  { intros [= <- <- <-]. repeat split; try assumption. discriminate. }
  destruct (incoming c) as [|ch rest] eqn:Hi.
  { intros [= <- <- <-]. rewrite Hi. repeat split; try assumption. discriminate. }
  intros [= <- <- <-]. simpl.
  destruct (Z.ltb_spec n (len ch)) as [Hlt|Hge]; simpl.
  - rewrite app_assoc, take_drop. repeat split; try assumption.
    intros _ Ht. right. apply (f_equal length) in Ht. rewrite length_take in Ht.
    simpl in Ht. unfold len in Hlt. lia.
  - rewrite take_ge by (unfold len in Hge; lia). repeat split; try assumption.
    intros _ ->. left. reflexivity.
Qed.

Lemma conn_Read_len n c d e c' :
  0 <= n -> conn_Read n c = (d, e, c') -> len d <= n /\ (d <> [] -> e = None).
Proof.
  intros Hn. unfold conn_Read.
  destruct (closed c); [intros [= <- <- <-]; split; [unfold len; simpl; lia|congruence]|].
  destruct (incoming c); [intros [= <- <- <-]; split; [unfold len; simpl; lia|congruence]|].
  intros [= <- <- <-]. rewrite len_take by lia. split; [lia|reflexivity].
Qed.

Lemma bufio_Read_split n b c d e b' c' :
  bufio_Read n b c = (d, e, b', c') ->
  d ++ pending b' c' = pending b c /\
  outgoing c' = outgoing c /\ closed c' = closed c.
Proof.
  unfold bufio_Read, pending.
  destruct (n =? 0); [intros [= <- <- <- <-]; auto|].
  destruct b as [|y b].
  - destruct (defaultBufSize <=? n).
    + destruct (conn_Read n c) as [[d0 e0] c0] eqn:ER.
      destruct (conn_Read_split _ _ _ _ _ ER) as (Hs & Ho & Hc & _).
      intros [= <- <- <- <-]. auto.
    + destruct (conn_Read defaultBufSize c) as [[d0 e0] c0] eqn:ER.
      destruct (conn_Read_split _ _ _ _ _ ER) as (Hs & Ho & Hc & _).
      destruct d0 as [|y d0]; intros [= <- <- <- <-]; [auto|].
      split; [|auto]. rewrite <- Hs, app_assoc, take_drop. reflexivity.
  - intros [= <- <- <- <-]. rewrite app_assoc, take_drop. auto.
Qed.

(** A read that neither fails nor makes the stream shorter has taken an
    empty chunk off the connection. *)
Lemma bufio_Read_progress n b c d e b' c' :
  0 < n -> bufio_Read n b c = (d, e, b', c') -> e = None ->
  len d <= n /\
  (d = [] -> S (length (incoming c')) = length (incoming c)) /\
  (length (incoming c') <= length (incoming c))%nat.
Proof.
  intros Hn. unfold bufio_Read.
  destruct (Z.eqb_spec n 0); [lia|].
  assert (Hcr : forall m d0 e0 c0, 0 < m -> conn_Read m c = (d0, e0, c0) -> e0 = None ->
            (d0 = [] -> S (length (incoming c0)) = length (incoming c)) /\
            (length (incoming c0) <= length (incoming c))%nat).
  { intros m d0 e0 c0 Hm ER He.
    destruct (conn_Read_split _ _ _ _ _ ER) as (_ & _ & _ & Hemp).
    split; [intros Hd; destruct (Hemp He Hd); [assumption|lia]|].
    revert ER. unfold conn_Read. destruct (closed c); [intros [= <- <- <-]; lia|].
    destruct (incoming c) as [|ch rest] eqn:Hi; [intros [= <- <- <-]; rewrite Hi; simpl; lia|].
    intros [= <- <- <-]. simpl. destruct (m <? len ch); simpl; lia. }
  destruct b as [|y b].
  - destruct (Z.leb_spec defaultBufSize n).
    + destruct (conn_Read n c) as [[d0 e0] c0] eqn:ER.
      intros [= <- <- <- <-] ->.
      destruct (Hcr n d0 None c0 Hn ER eq_refl) as [H1 H2].
      split; [|auto]. apply (conn_Read_len n c d0 None c0); [lia|exact ER].
    + destruct (conn_Read defaultBufSize c) as [[d0 e0] c0] eqn:ER.
      destruct d0 as [|y d0].
      * intros [= <- <- <- <-] ->.
        destruct (Hcr defaultBufSize [] None c0 ltac:(unfold defaultBufSize; lia) ER eq_refl)
          as [H1 H2].
        split; [unfold len; simpl; lia|auto].
      * intros [= <- <- <- <-] _.
        assert (e0 = None) as ->.
        { apply (conn_Read_len defaultBufSize c (y :: d0) e0 c0);
            [unfold defaultBufSize; lia|exact ER|discriminate]. }
        destruct (Hcr defaultBufSize (y :: d0) None c0 ltac:(unfold defaultBufSize; lia) ER eq_refl)
          as [H1 H2].
        split; [rewrite len_take by lia; lia|]. split; [|exact H2].
        destruct (Z.to_nat n) eqn:E; [lia|discriminate].
  - intros [= <- <- <- <-] _.
    split; [rewrite len_take by lia; lia|]. split; [|lia].
    destruct (Z.to_nat n) eqn:E; [lia|discriminate].
Qed.

Lemma readAtLeast_loop_split fuel : forall min acc b c d e b' c',
  readAtLeast_loop fuel min acc b c = (d, e, b', c') ->
  d ++ pending b' c' = acc ++ pending b c /\
  outgoing c' = outgoing c /\ closed c' = closed c.
Proof.
  induction fuel as [|fuel IH]; intros min acc b c d e b' c'; simpl.
  - destruct (len acc <? min); intros [= <- <- <- <-]; auto.
  - destruct (len acc <? min); [|intros [= <- <- <- <-]; auto].
    destruct (bufio_Read (min - len acc) b c) as [[[d0 e0] b0] c0] eqn:ER.
    destruct (bufio_Read_split _ _ _ _ _ _ _ ER) as (Hs & Ho & Hc).
    destruct e0 as [err|].
    + intros [= <- <- <- <-]. rewrite <- app_assoc, Hs. auto.
    + intros Hrun. destruct (IH _ _ _ _ _ _ _ _ Hrun) as (Hs' & Ho' & Hc').
      rewrite Hs', <- app_assoc, Hs. split; [reflexivity|]. split; congruence.
Qed.

Lemma io_ReadFull_split n b c d e b' c' :
  io_ReadFull n b c = (d, e, b', c') ->
  d ++ pending b' c' = pending b c /\
  outgoing c' = outgoing c /\ closed c' = closed c.
Proof. unfold io_ReadFull. intros H. apply (readAtLeast_loop_split _ _ _ _ _ _ _ _ _ H). Qed.

(** The loop of [io.ReadFull] ends by itself: more fuel than [io_ReadFull]
    gives it changes nothing. *)
Lemma readAtLeast_loop_fuel fuel : forall fuel' min acc b c,
  (Z.to_nat (min - len acc) + length (incoming c) <= fuel)%nat ->
  (Z.to_nat (min - len acc) + length (incoming c) <= fuel')%nat ->
  readAtLeast_loop fuel min acc b c = readAtLeast_loop fuel' min acc b c.
Proof.
  induction fuel as [|fuel IH]; intros fuel' min acc b c H1 H2.
  - destruct fuel'; simpl; [reflexivity|].
    destruct (Z.ltb_spec (len acc) min); [lia|reflexivity].
  - destruct fuel' as [|fuel'].
    + simpl. destruct (Z.ltb_spec (len acc) min); [lia|reflexivity].
    + simpl. destruct (Z.ltb_spec (len acc) min) as [Hlt|]; [|reflexivity].
      destruct (bufio_Read (min - len acc) b c) as [[[d0 e0] b0] c0] eqn:ER.
      destruct e0 as [err|]; [reflexivity|].
      destruct (bufio_Read_progress (min - len acc) b c d0 None b0 c0 ltac:(lia) ER eq_refl)
        as (Hd & Hemp & Hle).
      assert (Z.to_nat (min - len (acc ++ d0)) + length (incoming c0)
              < Z.to_nat (min - len acc) + length (incoming c))%nat.
      { rewrite len_app. destruct d0 as [|y d0].
        - specialize (Hemp eq_refl). unfold len at 2. simpl. lia.
        - unfold len at 2. unfold len in Hd. cbn [length] in *. lia. }
      apply IH; lia.
Qed.

Lemma io_ReadFull_fuel fuel n b c :
  (Z.to_nat n + length (incoming c) <= fuel)%nat ->
  readAtLeast_loop fuel n [] b c = io_ReadFull n b c.
Proof.
  intros H. unfold io_ReadFull. apply readAtLeast_loop_fuel; unfold len; simpl; lia.
Qed.

Lemma split_delim_split delim l pre post :
  split_delim delim l = Some (pre, post) -> pre ++ post = l /\ pre <> [].
Proof.
  revert pre post. induction l as [|x l IH]; intros pre post; simpl; [discriminate|].
  destruct (decide (x = delim)).
  - intros [= <- <-]. split; [reflexivity|discriminate].
  - destruct (split_delim delim l) as [[pre' post']|]; [|discriminate].
    intros [= <- <-]. destruct (IH pre' post' eq_refl) as [<- _].
    split; [reflexivity|discriminate].
Qed.

Lemma readBytes_chunks_split delim chunks : forall acc d e b' rest,
  readBytes_chunks delim acc chunks = (d, e, b', rest) ->
  d ++ b' ++ concat rest = acc ++ concat chunks /\ (e = None -> d <> []).
Proof.
  induction chunks as [|ch chunks IH]; intros acc d e b' rest; simpl.
  - intros [= <- <- <- <-]. split; [reflexivity|discriminate].
  - destruct (split_delim delim ch) as [[pre post]|] eqn:Es.
    + intros [= <- <- <- <-]. destruct (split_delim_split _ _ _ _ Es) as [<- Hne].
      rewrite <- !app_assoc. split; [reflexivity|].
      intros _ H. apply app_eq_nil in H as [_ H]. contradiction.
    + intros H. destruct (IH _ _ _ _ _ H) as [-> He].
      rewrite <- app_assoc. auto.
Qed.

Lemma bufio_ReadBytes_split delim b c d e b' c' :
  bufio_ReadBytes delim b c = (d, e, b', c') ->
  d ++ pending b' c' = pending b c /\ (e = None -> d <> []).
Proof.
  unfold bufio_ReadBytes, pending.
  destruct (split_delim delim b) as [[pre post]|] eqn:Es.
  - intros [= <- <- <- <-]. destruct (split_delim_split _ _ _ _ Es) as [<- Hne].
    rewrite <- app_assoc. auto.
  - destruct (closed c).
    + intros [= <- <- <- <-]. split; [reflexivity|discriminate].
    + destruct (readBytes_chunks delim b (incoming c)) as [[[d0 e0] b0] rest] eqn:ER.
      intros [= <- <- <- <-]. simpl.
      apply (readBytes_chunks_split _ _ _ _ _ _ _ ER).
Qed.

End Reader.

(** ** The length-prefixed encoder *)

Section Encoder.
Import Go Props Client.

Lemma be_value_PutUint32 v : 0 <= v < 2 ^ 32 -> be_value (PutUint32 v) = v.
Proof.
  intros Hv. unfold be_value, PutUint32. simpl.
  rewrite !Z_of_byte_of_Z, !Z.shiftr_div_pow2 by lia.
  change (2 ^ 8) with 256. change (2 ^ 16) with 65536. change (2 ^ 24) with 16777216.
  change (2 ^ 32) with 4294967296 in Hv.
  Z.div_mod_to_equations. lia.
Qed.

Lemma be_value_PutUint16 v : 0 <= v < 2 ^ 16 -> be_value (PutUint16 v) = v.
Proof.
  intros Hv. unfold be_value, PutUint16. simpl.
  rewrite !Z_of_byte_of_Z, !Z.shiftr_div_pow2 by lia.
  change (2 ^ 8) with 256. change (2 ^ 16) with 65536 in Hv.
  Z.div_mod_to_equations. lia.
Qed.

Lemma uint32_small v : 0 <= v < 2 ^ 32 -> uint32 v = v.
Proof. intros. unfold uint32. apply Z.mod_small. lia. Qed.

Lemma uint16_small v : 0 <= v < 2 ^ 16 -> uint16 v = v.
Proof. intros. unfold uint16. apply Z.mod_small. lia. Qed.

Lemma emit_writes s event data :
  connected s = true -> closed (connection s) = false ->
  len event <= 65534 ->
  emit s event data
  = set_connection s (mkConn (incoming (connection s))
                             (outgoing (connection s) ++ [messageFrame event data])
                             false).
Proof.
  intros Hc Ho Hl. unfold emit. rewrite Hc. simpl.
  destruct (Z.gtb_spec (len event) (2 ^ 16 - 2)) as [Hgt|_]; [change (2^16-2) with 65534 in Hgt; lia|].
  unfold conn_Write. rewrite Ho. simpl. unfold messageFrame, buildFrame. simpl.
  rewrite (uint16_small (len event)) by (pose proof (len_nonneg event); change (2^16) with 65536; lia).
  reflexivity.
Qed.

(** C4: [buildFrame] produces the four-byte big-endian length, the type
    byte and the payload, the length being that of the payload plus one;
    the payload of the MESSAGE frame [emit] writes is the two-byte
    big-endian length of the event name, the name and the data. *)
Theorem frame_layout (frameType : byte) (payload : list byte)
    (s : Socket) (event : gostring) (data : list byte) :
  len payload + 1 < 2 ^ 32 ->
  connected s = true -> closed (connection s) = false ->
  len event <= 65534 ->
  (exists hdr,
     buildFrame payload frameType = hdr ++ [frameType] ++ payload /\
     length hdr = 4%nat /\ be_value hdr = len payload + 1) /\
  (exists mpayload ehdr,
     outgoing (connection (emit s event data))
     = outgoing (connection s) ++ [buildFrame mpayload FRAME_TYPE_MESSAGE] /\
     mpayload = ehdr ++ event ++ data /\
     length ehdr = 2%nat /\ be_value ehdr = len event).
Proof.
  intros Hl Hc Ho He. split.
  - exists (PutUint32 (len payload + 1)).
    pose proof (len_nonneg payload).
    split; [|split].
    + unfold buildFrame. simpl. rewrite uint32_small by lia. reflexivity.
    + reflexivity.
    + apply be_value_PutUint32. lia.
  - exists (PutUint16 (len event) ++ event ++ data), (PutUint16 (len event)).
    rewrite emit_writes by assumption. simpl.
    pose proof (len_nonneg event).
    repeat split. apply be_value_PutUint16. change (2 ^ 16) with 65536. lia.
Qed.

Lemma frame_layout_witness :
  (exists hdr,
     buildFrame (str "payload") FRAME_TYPE_HEARTBEAT
     = hdr ++ [FRAME_TYPE_HEARTBEAT] ++ str "payload" /\
     length hdr = 4%nat /\ be_value hdr = len (str "payload") + 1) /\
  (exists mpayload ehdr,
     outgoing (connection (emit (dialed []) (str "ping") (str "hello")))
     = outgoing (connection (dialed [])) ++ [buildFrame mpayload FRAME_TYPE_MESSAGE] /\
     mpayload = ehdr ++ str "ping" ++ str "hello" /\
     length ehdr = 2%nat /\ be_value ehdr = len (str "ping")).
Proof.
  apply (frame_layout FRAME_TYPE_HEARTBEAT (str "payload") (dialed []) (str "ping") (str "hello"));
    [vm_compute; reflexivity|reflexivity|reflexivity|vm_compute; discriminate].
Defined.

End Encoder.

(** ** The length-prefixed decoder *)

Section Decoder.
Import Go Props Client.

Lemma bind_Ret {A B} (a : A) (k : A -> Outcome B) : (Ret a ≫= k) = k a.
Proof. reflexivity. Qed.


Lemma envokeEvent_events s s' name data :
  events s = events s' -> envokeEvent s name data = envokeEvent s' name data.
Proof. intros H. unfold envokeEvent. rewrite H. reflexivity. Qed.

Lemma slice_app_mid (l1 l2 l3 : list byte) :
  slice (l1 ++ l2 ++ l3) (len l1) (len l1 + len l2) = Ret l2.
Proof.
  unfold slice. pose proof (len_nonneg l1). pose proof (len_nonneg l2).
  pose proof (len_nonneg l3). rewrite !len_app.
  destruct (Z.leb_spec 0 (len l1)); [|lia].
  destruct (Z.leb_spec (len l1) (len l1 + len l2)); [|lia].
  destruct (Z.leb_spec (len l1 + len l2) (len l1 + (len l2 + len l3))); [|lia].
  simpl. f_equal.
  replace (Z.to_nat (len l1)) with (length l1) by (unfold len; lia).
  replace (Z.to_nat (len l1 + len l2 - len l1)) with (length l2) by (unfold len; lia).
  rewrite drop_app_length, take_app_length. reflexivity.
Qed.

Lemma processMessageFrame_roundtrip s event data :
  len event <= 65533 -> 2 <= len event + len data ->
  processMessageFrame s (PutUint16 (len event) ++ event ++ data)
  = envokeEvent s event data.
Proof.
  intros He Hd. pose proof (len_nonneg event). pose proof (len_nonneg data).
  unfold processMessageFrame.
  assert (Hu : Uint16 (PutUint16 (len event)) = Ret (len event)).
  { rewrite <- (app_nil_r (PutUint16 _)). apply Uint16_PutUint16.
    change (2 ^ 16) with 65536; lia. }
  remember (PutUint16 (len event)) as hdr eqn:Ehdr.
  assert (Hh : len hdr = 2) by (subst hdr; reflexivity).
  rewrite !len_app, Hh.
  destruct (Z.gtb_spec (2 + (len event + len data)) 3); [|lia].
  pose proof (slice_app_mid [] hdr (event ++ data)) as S1.
  rewrite Hh in S1. change (len []) with 0 in S1.
  rewrite app_nil_l in S1. change (0 + 2) with 2 in S1. rewrite S1, bind_Ret.
  rewrite Hu, bind_Ret.
  rewrite uint16_small by (change (2 ^ 16) with 65536; lia).
  pose proof (slice_app_mid hdr event data) as S2. rewrite Hh in S2.
  rewrite S2, bind_Ret.
  pose proof (slice_app_mid (hdr ++ event) data []) as S3.
  rewrite len_app, Hh, app_nil_r, <- app_assoc in S3.
  replace (2 + (len event + len data)) with (2 + len event + len data) by lia.
  rewrite S3, bind_Ret. reflexivity.
Qed.

Lemma bufio_Read_first n c ch rest :
  closed c = false -> incoming c = ch :: rest ->
  0 < n < defaultBufSize -> n <= len ch ->
  exists b' c',
    bufio_Read n [] c = (take (Z.to_nat n) ch, None, b', c') /\
    pending b' c' = drop (Z.to_nat n) (pending [] c) /\
    outgoing c' = outgoing c /\ closed c' = false.
Proof.
  intros Hc Hi Hn Hch. unfold bufio_Read.
  destruct (Z.eqb_spec n 0); [lia|].
  destruct (Z.leb_spec defaultBufSize n); [lia|].
  destruct (conn_Read_open defaultBufSize c ch rest) as (c1 & -> & Hcat & _ & _ & Ho & Hcl);
    [unfold defaultBufSize; lia|assumption|assumption|].
  destruct (take (Z.to_nat defaultBufSize) ch) as [|y d0] eqn:E.
  - apply (f_equal length) in E. rewrite length_take in E. cbn [length] in E.
    unfold len in Hch. unfold defaultBufSize in *. lia.
  - rewrite <- E in Hcat |- *. exists (drop (Z.to_nat n) (take (Z.to_nat defaultBufSize) ch)), c1.
    split; [|split; [|split; assumption]].
    + rewrite take_take. replace (Z.to_nat n `min` Z.to_nat defaultBufSize)%nat with (Z.to_nat n) by (unfold defaultBufSize in *; lia). reflexivity.
    + unfold pending. simpl app at 2. rewrite <- Hcat.
      rewrite drop_app_le; [reflexivity|].
      rewrite length_take. unfold len in Hch. unfold defaultBufSize in *. lia.
Qed.

Lemma listen_loop_S fuel clock i s b :
  listen_loop (S fuel) clock i s b =
  if negb (connected s) then Ret (s, [])
  else
    let '(size, err, b1, c1) := bufio_Read 4 b (connection s) in
    let s1 := set_connection s c1 in
    if failed err || negb (len size =? 4) then Ret (s1, [])
    else
      sizeVal ← Uint32 size;
      let '(payload, err, b2, c2) := io_ReadFull sizeVal b1 c1 in
      let s2 := set_connection s1 c2 in
      if failed err || negb (len payload =? sizeVal) then Ret (s2, [])
      else
        '(s3, evs) ← dispatchFrame (clock i) s2 payload;
        '(s4, evs') ← listen_loop fuel clock (S i) s3 b2;
        Ret (s4, evs ++ evs').
Proof. reflexivity. Qed.

(** At the end of the stream the loop stops and leaves the session as it
    is, but for the connection. *)
Lemma listen_loop_drained fuel clock i s b :
  connected s = true -> closed (connection s) = false ->
  pending b (connection s) = [] ->
  exists c', listen_loop (S fuel) clock i s b = Ret (set_connection s c', []) /\
             closed c' = false /\ outgoing c' = outgoing (connection s).
Proof.
  intros Hc Ho Hp. rewrite listen_loop_S, Hc. simpl negb. cbv iota.
  destruct (bufio_Read 4 b (connection s)) as [[[d e] b1] c1] eqn:ER.
  destruct (bufio_Read_ok 4 b (connection s) d e b1 c1 Ho ltac:(lia) ER)
    as (Hout & Hcl & _ & [(-> & Hcat & _)|(-> & -> & _)]).
  - rewrite Hp in Hcat. apply app_eq_nil in Hcat as [-> _].
    exists c1. auto.
  - exists c1. auto.
Qed.

Lemma listen_loop_one_message fuel clock i s event data ch rest :
  connected s = true -> closed (connection s) = false ->
  len event <= 65533 -> 2 <= len event + len data ->
  len event + len data + 3 < 2 ^ 32 ->
  incoming (connection s) = ch :: rest -> 4 <= len ch ->
  concat (ch :: rest) = messageFrame event data ->
  exists c',
    listen_loop (S (S fuel)) clock i s []
    = (evs ← envokeEvent s event data; Ret (set_connection s c', evs)) /\
    closed c' = false /\ outgoing c' = outgoing (connection s).
Proof.
  intros Hc Ho He Hd H32 Hi Hch Hcat.
  pose proof (len_nonneg event). pose proof (len_nonneg data).
  set (payload := PutUint16 (len event) ++ event ++ data).
  assert (Hpl : len payload = 2 + len event + len data).
  { unfold payload. rewrite !len_app. change (len (PutUint16 _)) with 2. lia. }
  assert (Hframe : messageFrame event data
                   = PutUint32 (len payload + 1) ++ FRAME_TYPE_MESSAGE :: payload).
  { unfold messageFrame, buildFrame. fold payload. simpl app.
    rewrite uint32_small by lia. reflexivity. }
  rewrite listen_loop_S, Hc. simpl negb. cbv iota.
  destruct (bufio_Read_first 4 (connection s) ch rest Ho Hi) as (b1 & c1 & -> & Hp1 & Ho1 & Hc1);
    [unfold defaultBufSize; lia|lia|].
  assert (Htake : take (Z.to_nat 4) ch = PutUint32 (len payload + 1)).
  { rewrite <- (take_app_le ch (concat rest)) by (unfold len in Hch; lia).
    change (ch ++ concat rest) with (concat (ch :: rest)).
    rewrite Hcat, Hframe. reflexivity. }
  rewrite Htake. cbv beta iota zeta.
  change (len (PutUint32 (len payload + 1)) =? 4) with true.
  unfold failed at 1. simpl orb. cbv iota.
  replace (PutUint32 (len payload + 1)) with (PutUint32 (len payload + 1) ++ []) by apply app_nil_r.
  rewrite Uint32_PutUint32, bind_Ret by lia.
  assert (Hpend : pending b1 c1 = FRAME_TYPE_MESSAGE :: payload).
  { rewrite Hp1. unfold pending. rewrite Hi, app_nil_l, Hcat, Hframe. reflexivity. }
  destruct (io_ReadFull_ok (len payload + 1) b1 c1 Hc1) as (b2 & c2 & -> & Hp2 & Ho2 & Hc2).
  { rewrite Hpend. unfold len. cbn [length]. lia. }
  assert (Hlenp : Z.to_nat (len payload + 1) = length (FRAME_TYPE_MESSAGE :: payload)).
  { unfold len. cbn [length]. lia. }
  rewrite Hpend, Hlenp in Hp2 |- *. rewrite firstn_all in *. rewrite skipn_all in Hp2.
  cbv beta iota zeta.
  replace (len (FRAME_TYPE_MESSAGE :: payload)) with (len payload + 1)
    by (unfold len; cbn [length]; lia).
  rewrite Z.eqb_refl. unfold failed at 1. simpl orb. cbv iota.
  unfold dispatchFrame.
  change (index (FRAME_TYPE_MESSAGE :: payload) 0) with (Ret FRAME_TYPE_MESSAGE).
  rewrite bind_Ret.
  destruct (decide (FRAME_TYPE_MESSAGE = FRAME_TYPE_MESSAGE)); [|congruence].
  change (drop 1 (FRAME_TYPE_MESSAGE :: payload)) with payload.
  unfold payload at 1. rewrite processMessageFrame_roundtrip by assumption.
  rewrite (envokeEvent_events _ s) by reflexivity.
  destruct (envokeEvent s event data) as [evs|cr]; [|exists c2; rewrite Ho2; auto].
  rewrite !bind_Ret.
  destruct (listen_loop_drained fuel clock (S i)
              (set_connection (set_connection s c1) c2) b2) as (c3 & -> & Hc3 & Ho3);
    [assumption|assumption|assumption|].
  rewrite bind_Ret. exists c3. rewrite app_nil_r. simpl in Ho3.
  split; [reflexivity|]. split; [assumption|congruence].
Qed.

Lemma listen_decodes_message clock s event data ch rest :
  connected s = true -> closed (connection s) = false ->
  len event <= 65533 -> 2 <= len event + len data ->
  len event + len data + 3 < 2 ^ 32 ->
  incoming (connection s) = ch :: rest -> 4 <= len ch ->
  concat (ch :: rest) = messageFrame event data ->
  trace (listen clock s)
  = (evs ← envokeEvent s event data;
     evs' ← envokeEvent s (str "disconnection") [];
     Ret (evs ++ evs')).
Proof.
  intros Hc Ho He Hd H32 Hi Hch Hcat. unfold listen.
  assert (Hfuel : exists f, length (concat (incoming (connection s))) = S f).
  { rewrite Hi, Hcat. unfold messageFrame, buildFrame. simpl. eauto. }
  destruct Hfuel as [f ->].
  destruct (listen_loop_one_message f clock 0%nat s event data ch rest)
    as (c' & -> & Hc' & Ho'); try assumption.
  destruct (envokeEvent s event data) as [evs|cr]; [|reflexivity].
  rewrite !bind_Ret. unfold disconnect. simpl connected. rewrite Hc. simpl negb. cbv iota.
  rewrite (envokeEvent_events _ s) by reflexivity.
  destruct (envokeEvent s (str "disconnection") []) as [evs'|cr]; reflexivity.
Qed.

(** C1, as the code has it: a MESSAGE frame of the length-prefixed codec,
    for an event name of at most 65533 bytes, with at least two bytes of
    name and data together and a length that fits the 32-bit field, is
    decoded to exactly the event name and the data it was built from,
    whatever the bytes of the data are: by a session that receives it in
    any pieces of which the first holds the length prefix, and so by a
    client that receives what another client wrote. *)
Theorem message_roundtrip clock s event data ch rest :
  connected s = true -> closed (connection s) = false ->
  len event <= 65533 -> 2 <= len event + len data ->
  len event + len data + 3 < 2 ^ 32 ->
  incoming (connection s) = ch :: rest -> 4 <= len ch ->
  concat (ch :: rest) = messageFrame event data ->
  trace (listen clock s)
  = (evs ← envokeEvent s event data;
     evs' ← envokeEvent s (str "disconnection") [];
     Ret (evs ++ evs')) /\
  decode_encode event data
  = Ret [Envoke event data; Envoke (str "disconnection") []].
Proof.
  intros Hc Ho He Hd H32 Hi Hch Hcat.
  split; [apply (listen_decodes_message clock s event data ch rest); assumption|].
  unfold decode_encode.
  rewrite emit_writes by (try reflexivity; lia). cbn [connection outgoing set_connection dialed app].
  rewrite (listen_decodes_message _ _ event data (messageFrame event data) []);
    try reflexivity; try assumption.
  - unfold messageFrame, buildFrame, len. cbn [app length PutUint32]. lia.
  - cbn [concat]. apply app_nil_r.
Qed.

Lemma message_roundtrip_witness :
  trace (listen (fun _ => 0)
           (dialed [firstn 6 (messageFrame (str "ping") [x00; x0a; x5c; xff]);
                    skipn 6 (messageFrame (str "ping") [x00; x0a; x5c; xff])]))
  = Ret [Envoke (str "ping") [x00; x0a; x5c; xff]; Envoke (str "disconnection") []] /\
  decode_encode (str "ping") [x00; x0a; x5c; xff]
  = Ret [Envoke (str "ping") [x00; x0a; x5c; xff]; Envoke (str "disconnection") []].
Proof.
  apply (message_roundtrip (fun _ => 0)
           (dialed [firstn 6 (messageFrame (str "ping") [x00; x0a; x5c; xff]);
                    skipn 6 (messageFrame (str "ping") [x00; x0a; x5c; xff])])
           (str "ping") [x00; x0a; x5c; xff]
           (firstn 6 (messageFrame (str "ping") [x00; x0a; x5c; xff]))
           [skipn 6 (messageFrame (str "ping") [x00; x0a; x5c; xff])]);
    try reflexivity; vm_compute; discriminate.
Defined.

(** C1, as stated, fails: for a name of 65535 bytes the client writes no
    frame at all, so nothing is decoded; and the newline-delimited codec
    of the server turns the data bytes 92 92 0 into the byte 10. *)
Lemma roundtrip_fails_as_stated :
  len (repeat x61 (Z.to_nat 65535)) <= 65535 /\
  decode_encode (repeat x61 (Z.to_nat 65535)) [] = Ret [Envoke (str "disconnection") []] /\
  server_decode_encode (str "ev") [x5c; x5c; x00]
  = Ret [Server.Envoke (str "ev") [x0a]; Server.CallDisconnect Server.noop (str "id")].
Proof.
  split; [vm_compute; discriminate|]. split; vm_compute; reflexivity.
Qed.

(** Outside these bounds the decoder drops or refuses what the encoder
    wrote: a frame with fewer than two bytes of name and data is
    not dispatched, and a name of 65534 bytes makes the slice bound
    [2 + eventLen] wrap around. *)
Example short_message_dropped :
  decode_encode (str "a") [] = Ret [Envoke (str "disconnection") []].
Proof. vm_compute. reflexivity. Qed.

Example name_of_65534_bytes_crashes :
  decode_encode (repeat x61 (Z.to_nat 65534)) [] = Crash SliceOutOfRange.
Proof. vm_compute. reflexivity. Qed.

(** A first piece of one to three bytes ends the loop, whatever follows. *)
Lemma short_first_chunk_ends_loop fuel clock i s ch rest :
  connected s = true -> closed (connection s) = false ->
  incoming (connection s) = ch :: rest -> 0 < len ch < 4 ->
  listen_loop (S fuel) clock i s []
  = Ret (set_connection s (mkConn rest (outgoing (connection s)) false), []).
Proof.
  intros Hc Ho Hi Hch. rewrite listen_loop_S, Hc. simpl negb. cbv iota.
  unfold bufio_Read, conn_Read. rewrite Ho, Hi.
  change (4 =? 0) with false. change (defaultBufSize <=? 4) with false. cbv iota.
  assert (Hlen : (0 < length ch < 4)%nat) by (unfold len in Hch; lia).
  destruct (Z.ltb_spec defaultBufSize (len ch)) as [Hbig|_];
    [unfold defaultBufSize in Hbig; lia|].
  rewrite (take_ge ch (Z.to_nat defaultBufSize)) by (unfold defaultBufSize; lia).
  destruct ch as [|y ch]; [simpl in Hlen; lia|]. cbv iota beta zeta.
  rewrite take_ge by (simpl in *; lia).
  unfold failed. rewrite orb_false_l.
  destruct (Z.eqb_spec (len (y :: ch)) 4); [lia|]. reflexivity.
Qed.
(** C5: the four bytes of the length prefix are asked of the reader in
    one [Read], which may return fewer; a heartbeat frame whose prefix
    arrives in two pieces ends the session with the rest of the frame
    unread, although the same bytes in one piece are answered. *)
Theorem split_length_prefix_disconnects :
  listen (fun _ => 0) (dialed [[x00; x00]; [x00; x01; x5b]])
  = Ret (mkSocket [] (mkConn [[x00; x01; x5b]] [] true) ∅ false 0,
         [Envoke (str "disconnection") []]) /\
  listen (fun _ => 0) (dialed [[x00; x00; x00; x01; x5b]])
  = Ret (mkSocket [] (mkConn [] [buildFrame [] FRAME_TYPE_HEARTBEAT_ACK] true) ∅ false 0,
         [Envoke (str "disconnection") []]).
Proof. split; vm_compute; reflexivity. Qed.

End Decoder.

(** ** The heartbeat monitor *)

Section Heartbeat.
Import Go Props.

Lemma int64_small z : - 2 ^ 63 <= z < 2 ^ 63 -> int64 z = z.
Proof.
  intros H. unfold int64. rewrite Z.mod_small; lia.
Qed.

(** C2: the test at the end of a round subtracts the time of the probe
    from that of the last acknowledgement, so an acknowledgement that is
    older than the probe, by however much, never ends the session. *)
Theorem heartbeat_stale_ack_survives (lastAck start : Z) (s : Client.Socket) :
  0 < lastAck -> lastAck <= start -> start < 2 ^ 62 ->
  Client.connected s = true -> Client.lastHeartbeatAck s = lastAck ->
  Client.heartbeatExpired lastAck start = false /\
  Server.heartbeatExpired lastAck start = false /\
  snd (Client.heartbeatRound start (fun s' => s') s) = Client.Alive.
Proof.
  intros H0 Hle Hs Hc Hl.
  assert (He : Client.heartbeatExpired lastAck start = false).
  { unfold Client.heartbeatExpired, Client.HEARTBEAT_INTERVAL.
    rewrite int64_small by lia.
    destruct (Z.eqb_spec lastAck 0); [lia|].
    destruct (Z.gtb_spec (lastAck - start) (10 * 1000)); [lia|reflexivity]. }
  split; [exact He|]. split.
  - unfold Server.heartbeatExpired. rewrite int64_small by lia.
    destruct (Z.eqb_spec lastAck 0); [lia|].
    destruct (Z.gtb_spec (lastAck - start) 5000); [lia|reflexivity].
  - unfold Client.heartbeatRound. rewrite Hc. simpl negb. cbv iota.
    unfold Client.raw. rewrite Hc. simpl. rewrite Hc, Hl, He. reflexivity.
Qed.

Lemma heartbeat_stale_ack_survives_witness :
  10 * 1000 < 1700000020000 - 1700000000000 /\
  snd (Client.heartbeatRound 1700000020000 (fun s' => s')
         (Client.mkSocket [] (mkConn [] [] false) ∅ true 1700000000000))
  = Client.Alive.
Proof.
  split; [lia|].
  apply (heartbeat_stale_ack_survives 1700000000000 1700000020000
           (Client.mkSocket [] (mkConn [] [] false) ∅ true 1700000000000));
    [lia|lia|lia|reflexivity|reflexivity].
Defined.
End Heartbeat.

(** ** The bound on event names *)

Section NameLength.
Import Go Props.

Lemma buildMessageFrameHeader_too_long event frameType :
  65534 < len event ->
  Server.buildMessageFrameHeader event frameType = inr Server.EventNameTooLong.
Proof.
  intros H. unfold Server.buildMessageFrameHeader.
  destruct (Z.gtb_spec (len event) (2 ^ 16 - 2)) as [_|Hle]; [reflexivity|].
  change (2 ^ 16 - 2) with 65534 in Hle. lia.
Qed.

Lemma server_send_writes s event data frameType :
  Server.connected s = true -> closed (Server.connection s) = false -> len event <= 65534 ->
  exists frame,
    Server.buildMessageFrame event data frameType = inl frame /\
    outgoing (Server.connection (Server.send s event data frameType))
    = outgoing (Server.connection s) ++ [frame].
Proof.
  intros Hc Ho Hshort.
  assert (exists hdr, Server.buildMessageFrameHeader event frameType = inl hdr) as [hdr Hhdr].
  { unfold Server.buildMessageFrameHeader.
    destruct (Z.gtb_spec (len event) (2 ^ 16 - 2)) as [Hgt|_].
    - change (2 ^ 16 - 2) with 65534 in Hgt. lia.
    - eexists. reflexivity. }
  unfold Server.send, Server.buildMessageFrame. rewrite Hhdr, Hc. simpl negb. cbv iota.
  eexists. split; [reflexivity|].
  unfold conn_Write. rewrite Ho. reflexivity.
Qed.

(** C6, as the code has it: a name of more than 65534 bytes makes
    [buildMessageFrameHeader] return its error, and the send operations of
    server and client then return without having written anything; every
    name of at most 65534 bytes is accepted and one frame is written. *)
Theorem event_name_bound (event : gostring) (frameType : byte)
    (s : Server.Socket) (c : Client.Socket) (data : list byte) :
  Server.connected s = true -> closed (Server.connection s) = false ->
  (65534 < len event ->
     Server.buildMessageFrameHeader event frameType = inr Server.EventNameTooLong /\
     Server.send s event data frameType = s /\
     Client.emit c event data = c) /\
  (len event <= 65534 ->
     exists frame,
       Server.buildMessageFrame event data frameType = inl frame /\
       outgoing (Server.connection (Server.send s event data frameType))
       = outgoing (Server.connection s) ++ [frame]).
Proof.
  intros Hc Ho. split.
  - intros Hlong. split; [apply buildMessageFrameHeader_too_long; exact Hlong|]. split.
    + unfold Server.send, Server.buildMessageFrame.
      rewrite buildMessageFrameHeader_too_long by exact Hlong.
      destruct (negb (Server.connected s)); reflexivity.
    + unfold Client.emit.
      destruct (negb (Client.connected c)); [reflexivity|].
      destruct (Z.gtb_spec (len event) (2 ^ 16 - 2)) as [_|Hle]; [reflexivity|].
      change (2 ^ 16 - 2) with 65534 in Hle. lia.
  - intros Hshort. apply server_send_writes; assumption.
Qed.

Lemma event_name_bound_witness :
  exists frame,
    Server.buildMessageFrame (str "ping") (str "hello") Server.FRAME_TYPE_MESSAGE = inl frame /\
    outgoing (Server.connection
                (Server.send (accepted [])
                   (str "ping") (str "hello") Server.FRAME_TYPE_MESSAGE))
    = [] ++ [frame].
Proof.
  apply (event_name_bound (str "ping") Server.FRAME_TYPE_MESSAGE
           (accepted [])
           (dialed []) (str "hello"));
    [reflexivity|reflexivity|vm_compute; discriminate].
Defined.

(** C6, as stated, fails: a name of 65535 bytes is refused. *)
Lemma event_name_65535_refused :
  len (repeat x61 (Z.to_nat 65535)) <= 65535 /\
  Server.buildMessageFrameHeader (repeat x61 (Z.to_nat 65535)) Server.FRAME_TYPE_MESSAGE
  = inr Server.EventNameTooLong /\
  outgoing (Server.connection
              (Server.send (accepted [])
                 (repeat x61 (Z.to_nat 65535)) [] Server.FRAME_TYPE_MESSAGE)) = [].
Proof.
  split; [vm_compute; discriminate|]. split; vm_compute; reflexivity.
Qed.
End NameLength.

(** ** Event names on the send path of the server *)

Section EventName.
Import Go Props Server.

Lemma byte_of_Z_newline z : byte_of_Z z = x0a <-> z mod 256 = 10.
Proof.
  split; intros H.
  - rewrite <- Z_of_byte_of_Z, H. reflexivity.
  - unfold byte_of_Z. rewrite H. reflexivity.
Qed.

Lemma newline_in_PutUint16 v :
  0 <= v < 2 ^ 16 ->
  x0a ∈ PutUint16 v <-> v / 256 = 10 \/ v mod 256 = 10.
Proof.
  intros Hv. change (2 ^ 16) with 65536 in Hv. unfold PutUint16.
  rewrite !elem_of_cons, elem_of_nil.
  assert (Hsym : forall b : byte, x0a = b <-> b = x0a) by (intros; split; congruence).
  rewrite !Hsym, !byte_of_Z_newline.
  rewrite Z.shiftr_div_pow2 by lia. change (2 ^ 8) with 256.
  rewrite (Z.mod_small (v / 256)) by (split; [apply Z.div_pos; lia|apply Z.div_lt_upper_bound; lia]).
  tauto.
Qed.

Lemma newline_not_in_remove_byte event : x0a ∉ remove_byte x0a event.
Proof.
  unfold remove_byte. rewrite list_elem_of_filter. intros [H _]. congruence.
Qed.

Lemma len_remove_byte x event : 0 <= len (remove_byte x event) <= len event.
Proof.
  unfold remove_byte, len. pose proof (length_filter (fun y => y <> x) event). lia.
Qed.

Lemma len_repeat {A} (x : A) n : len (repeat x n) = Z.of_nat n.
Proof. unfold len. rewrite repeat_length. reflexivity. Qed.

(** C9: for a name the send path accepts, the newline bytes are taken out
    of it, NUL bytes are appended exactly when the length of the result
    would put the byte 10 into the two-byte length field, after which
    neither the field nor the name holds a byte 10; no error is returned,
    and a name that had a newline in it is sent changed. *)
Theorem event_name_rewritten (event : gostring) (frameType : byte) :
  len event <= 65534 ->
  exists pad : nat,
    buildMessageFrameHeader event frameType
    = inl ([frameType]
             ++ PutUint16 (len (remove_byte x0a event) + Z.of_nat pad)
             ++ remove_byte x0a event ++ repeat x00 pad) /\
    (pad <> 0%nat <-> x0a ∈ PutUint16 (len (remove_byte x0a event))) /\
    (x0a ∉ PutUint16 (len (remove_byte x0a event) + Z.of_nat pad)) /\
    (x0a ∉ remove_byte x0a event) /\
    (x0a ∈ event -> remove_byte x0a event ++ repeat x00 pad <> event).
Proof.
  intros Hl. unfold buildMessageFrameHeader.
  destruct (Z.gtb_spec (len event) (2 ^ 16 - 2)) as [Hgt|_];
    [change (2 ^ 16 - 2) with 65534 in Hgt; lia|].
  pose proof (len_remove_byte x0a event) as Hn.
  set (name := remove_byte x0a event) in *.
  assert (Hdiff : forall pad, x0a ∈ event -> name ++ repeat x00 pad <> event).
  { intros pad Hin Heq. rewrite <- Heq in Hin.
    rewrite elem_of_app in Hin. destruct Hin as [Hin|Hin].
    - exact (newline_not_in_remove_byte event Hin).
    - apply list_elem_of_In, repeat_spec in Hin. discriminate. }
  cbv zeta.
  rewrite Z.quot_div_nonneg, Z.rem_mod_nonneg by lia.
  pose proof (Z.div_mod (len name) 256 ltac:(lia)) as Hdm.
  pose proof (Z.mod_pos_bound (len name) 256 ltac:(lia)) as Hm.
  destruct (Z.eqb_spec (len name / 256) 10) as [Hq|Hq].
  - exists (Z.to_nat (256 - len name mod 256)).
    assert (Hv : len name + Z.of_nat (Z.to_nat (256 - len name mod 256)) = 2816) by lia.
    split; [|split; [|split; [|split]]].
    + rewrite len_app, len_repeat, Hv. rewrite uint16_small by (change (2 ^ 16) with 65536; lia).
      simpl app. reflexivity.
    + rewrite newline_in_PutUint16 by (change (2 ^ 16) with 65536; lia).
      split; [intros _; left; exact Hq|intros _; lia].
    + rewrite Hv. rewrite newline_in_PutUint16 by (change (2 ^ 16) with 65536; lia).
      change (2816 / 256) with 11. change (2816 mod 256) with 0. lia.
    + apply newline_not_in_remove_byte.
    + apply Hdiff.
  - destruct (Z.eqb_spec (len name mod 256) 10) as [Hr|Hr].
    + exists 1%nat. split; [|split; [|split; [|split]]].
      * rewrite len_app. change (len [x00]) with 1.
        rewrite uint16_small by (change (2 ^ 16) with 65536; lia).
        simpl app. reflexivity.
      * rewrite newline_in_PutUint16 by (change (2 ^ 16) with 65536; lia).
        split; [intros _; right; exact Hr|intros _; lia].
      * rewrite newline_in_PutUint16 by (change (2 ^ 16) with 65536; lia).
        change (Z.of_nat 1) with 1.
        assert ((len name + 1) / 256 = len name / 256 /\ (len name + 1) mod 256 = 11) as [-> ->].
        { clear Hdm. Z.div_mod_to_equations. lia. }
        lia.
      * apply newline_not_in_remove_byte.
      * apply Hdiff.
    + exists 0%nat. split; [|split; [|split; [|split]]].
      * change (Z.of_nat 0) with 0. rewrite Z.add_0_r.
        rewrite uint16_small by (change (2 ^ 16) with 65536; lia).
        simpl repeat. rewrite app_nil_r. simpl app. reflexivity.
      * rewrite newline_in_PutUint16 by (change (2 ^ 16) with 65536; lia).
        split; [congruence|tauto].
      * change (Z.of_nat 0) with 0. rewrite Z.add_0_r.
        rewrite newline_in_PutUint16 by (change (2 ^ 16) with 65536; lia). tauto.
      * apply newline_not_in_remove_byte.
      * apply Hdiff.
Qed.
Lemma event_name_rewritten_witness :
  exists pad : nat,
    buildMessageFrameHeader [x61; x0a; x62] FRAME_TYPE_MESSAGE
    = inl ([FRAME_TYPE_MESSAGE]
             ++ PutUint16 (len (remove_byte x0a [x61; x0a; x62]) + Z.of_nat pad)
             ++ remove_byte x0a [x61; x0a; x62] ++ repeat x00 pad) /\
    (pad <> 0%nat <-> x0a ∈ PutUint16 (len (remove_byte x0a [x61; x0a; x62]))) /\
    (x0a ∉ PutUint16 (len (remove_byte x0a [x61; x0a; x62]) + Z.of_nat pad)) /\
    (x0a ∉ remove_byte x0a [x61; x0a; x62]) /\
    (x0a ∈ [x61; x0a; x62] ->
     remove_byte x0a [x61; x0a; x62] ++ repeat x00 pad <> [x61; x0a; x62]).
Proof.
  apply (event_name_rewritten [x61; x0a; x62] FRAME_TYPE_MESSAGE).
  vm_compute. discriminate.
Defined.

(** What the peer makes of such names: the newline is gone, and so is the
    padding of a name of ten bytes. *)
Example newline_name_delivered_without_newline :
  server_decode_encode [x61; x0a; x62] (str "x")
  = Ret [Envoke [x61; x62] (str "x"); CallDisconnect noop (str "id")].
Proof. vm_compute. reflexivity. Qed.

Example padded_name_sent_with_NUL :
  buildMessageFrameHeader (str "0123456789") FRAME_TYPE_MESSAGE
  = inl ([FRAME_TYPE_MESSAGE; x00; x0b] ++ str "0123456789" ++ [x00]).
Proof. vm_compute. reflexivity. Qed.
End EventName.

(** ** Disconnection *)

Section Disconnection.
Import Go Props.





Lemma server_listen_loop_stopped fuel clock i s b :
  Server.connected s = false ->
  Server.listen_loop (S fuel) clock i s b = Ret (s, []).
Proof. intros Hc. simpl. rewrite Hc. reflexivity. Qed.


Lemma server_teardown clock srv s h s1 :
  Server.disconnectEvent srv = Some h ->
  Server.listen_loop (S (length (concat (incoming (Server.connection s))))) clock 0 s []
  = Ret (s1, []) ->
  exists srv' s',
    Server.listen clock srv s = Ret (srv', s', [Server.CallDisconnect h (Server.Id s1)]) /\
    closed (Server.connection s') = true /\
    (Server.connected s1 = false -> Server.connected s' = false).
Proof.
  intros Hh Hl. unfold Server.listen. rewrite Hl, bind_Ret.
  unfold Server.removeSocket. simpl Server.Id.
  destruct (Server.sockets srv !! Server.Id s1); simpl; rewrite Hh; simpl;
    eexists _, _; (split; [reflexivity|]); simpl; auto.
Qed.


(** C7, as the code has it: [Disconnect()] sets [connected] to false, and
    a second call changes nothing; on the client it also closes the
    transport, on the server it leaves the transport as it is and the read
    loop closes it when it next looks at the flag. *)
Theorem Disconnect_flag_and_transport (s : Client.Socket)
    (srv : Server.Server) (ss : Server.Socket) (hs : nat) (clock : nat -> Z) :
  Client.events s !! str "disconnection" <> Some None ->
  Server.disconnectEvent srv = Some hs ->
  (exists s1 evs,
     Client.Disconnect s = Ret (s1, evs) /\
     Client.connected s1 = false /\ closed (Client.connection s1) = true /\
     Client.Disconnect s1 = Ret (s1, [])) /\
  (Server.connected (Server.Disconnect ss) = false /\
   Server.connection (Server.Disconnect ss) = Server.connection ss /\
   Server.Disconnect (Server.Disconnect ss) = Server.Disconnect ss) /\
  (exists srv' ss' evs,
     Server.listen clock srv (Server.Disconnect ss) = Ret (srv', ss', evs) /\
     Server.connected ss' = false /\ closed (Server.connection ss') = true).
Proof.
  intros Hnil Hs. split; [|split].
  - unfold Client.Disconnect, Client.disconnect.
    destruct (Client.connected s) eqn:Hc; simpl negb; cbv iota.
    + unfold Client.envokeEvent. simpl Client.events.
      destruct (Client.events s !! str "disconnection") as [[h|]|]; [|congruence|];
        rewrite bind_Ret; eexists _, _; (split; [reflexivity|]); simpl; auto.
    + eexists _, _. split; [reflexivity|]. simpl. rewrite Hc. auto.
  - auto.
  - destruct (server_teardown clock srv (Server.Disconnect ss) hs (Server.Disconnect ss) Hs)
      as (srv' & ss' & Hl & Hcl & Hcon).
    { apply server_listen_loop_stopped. reflexivity. }
    eexists srv', ss', _. split; [exact Hl|]. split; [apply Hcon; reflexivity|exact Hcl].
Qed.

Lemma Disconnect_flag_and_transport_witness :
  exists s1 evs,
    Client.Disconnect (dialed []) = Ret (s1, evs) /\
    Client.connected s1 = false /\ closed (Client.connection s1) = true /\
    Client.Disconnect s1 = Ret (s1, []).
Proof.
  apply (Disconnect_flag_and_transport (dialed [])
           served (accepted []) Server.noop (fun _ => 0));
    [vm_compute; discriminate|reflexivity].
Defined.

(** C7, as stated, fails on the server: [Disconnect()] leaves the
    transport open. *)
Lemma server_Disconnect_leaves_transport_open :
  Server.connected
    (Server.Disconnect (accepted [])) = false /\
  closed (Server.connection (Server.Disconnect (accepted []))) = false.
Proof. split; reflexivity. Qed.
End Disconnection.

(** ** Broadcast *)

Section Fanout.
Import Go Props Server.

(** C8: for a session of the server's set, [Broadcast] calls [Emit] on
    every other session of the set, which writes the MESSAGE frame to each
    of them that is connected, and leaves the caller's own session as it
    is: nothing is written to it. *)
Theorem Broadcast_reaches_the_others (srv : Server) (s : Socket) (event data : gostring) :
  sockets srv !! Id s = Some s ->
  sockets (Broadcast srv s event data) !! Id s = Some s /\
  (forall id t, id <> Id s -> sockets srv !! id = Some t ->
     sockets (Broadcast srv s event data) !! id = Some (Emit t event data)) /\
  (forall id, sockets srv !! id = None ->
     sockets (Broadcast srv s event data) !! id = None) /\
  (forall id t, id <> Id s -> sockets srv !! id = Some t ->
     connected t = true -> closed (connection t) = false -> len event <= 65534 ->
     exists frame,
       buildMessageFrame event data FRAME_TYPE_MESSAGE = inl frame /\
       outgoing (connection (Emit t event data)) = outgoing (connection t) ++ [frame]).
Proof.
  intros Hs. unfold Broadcast. simpl sockets.
  split; [|split; [|split]].
  - rewrite map_lookup_imap, Hs. simpl. rewrite decide_True by reflexivity. reflexivity.
  - intros id t Hne Ht. rewrite map_lookup_imap, Ht. simpl.
    rewrite decide_False by exact Hne. reflexivity.
  - intros id Hn. rewrite map_lookup_imap, Hn. reflexivity.
  - intros id t _ _ Hc Ho Hl. unfold Emit, emit. apply server_send_writes; assumption.
Qed.
Lemma Broadcast_reaches_the_others_witness :
  sockets (Broadcast
             (mkServer [] (<[str "a" := mkSocket (str "a") (mkConn [] [] false) ∅ true 0]>
                           (<[str "b" := mkSocket (str "b") (mkConn [] [] false) ∅ true 0]>
                            (<[str "c" := mkSocket (str "c") (mkConn [] [] false) ∅ true 0]> ∅)))
                       (Some noop) (Some noop))
             (mkSocket (str "a") (mkConn [] [] false) ∅ true 0) (str "ev") (str "x"))
    !! str "a"
  = Some (mkSocket (str "a") (mkConn [] [] false) ∅ true 0).
Proof.
  apply (Broadcast_reaches_the_others
           (mkServer [] (<[str "a" := mkSocket (str "a") (mkConn [] [] false) ∅ true 0]>
                         (<[str "b" := mkSocket (str "b") (mkConn [] [] false) ∅ true 0]>
                          (<[str "c" := mkSocket (str "c") (mkConn [] [] false) ∅ true 0]> ∅)))
                     (Some noop) (Some noop))
           (mkSocket (str "a") (mkConn [] [] false) ∅ true 0) (str "ev") (str "x")).
  vm_compute. reflexivity.
Defined.
End Fanout.

(** ** Runs that avoid a crash *)

Section Avoiding.
Import Go Props.

Variable x : crash.
Hypothesis Hx : excluded x.

Lemma avoids_bind {A B} (P : A -> Prop) (Q : B -> Prop) (m : Outcome A) (k : A -> Outcome B) :
  avoids x P m -> (forall a, P a -> avoids x Q (k a)) -> avoids x Q (m ≫= k).
Proof. destruct m as [a|c]; simpl; auto. Qed.

Lemma index_avoids l i : avoids x (fun _ => True) (index l i).
Proof.
  destruct Hx as [-> | ->]; unfold index; destruct (_ && _); simpl; try congruence;
    destruct (nth_error _ _); simpl; (trivial || congruence).
Qed.

Lemma slice_avoids l lo hi : avoids x (fun _ => True) (slice l lo hi).
Proof.
  destruct Hx as [-> | ->]; unfold slice; destruct (_ && _); simpl; (trivial || congruence).
Qed.

Lemma Uint16_avoids b : avoids x (fun _ => True) (Uint16 b).
Proof.
  destruct Hx as [-> | ->]; destruct b as [|? [|? ?]]; simpl; (trivial || congruence).
Qed.

Lemma Uint32_avoids b : avoids x (fun _ => True) (Uint32 b).
Proof.
  destruct Hx as [-> | ->]; destruct b as [|? [|? [|? [|? ?]]]]; simpl;
    (trivial || congruence).
Qed.

Create HintDb avoids.
Hint Resolve index_avoids slice_avoids Uint16_avoids Uint32_avoids : avoids.

(** One step of a run: the first computation avoids [x] by a lemma of the
    hint database, the rest is left to prove. *)
Ltac avoid_step :=
  apply (avoids_bind (fun _ => True)); [solve [auto with avoids]|intros ? _].

Lemma unescape_loop_avoids todo : forall data i skip filtered,
  avoids x (fun _ => True) (Server.unescape_loop todo data i skip filtered).
Proof.
  induction todo as [|todo IH]; intros data i skip filtered; simpl; [trivial|].
  destruct (skip >? 1); [apply IH|].
  avoid_step.
  apply (avoids_bind (fun _ => True)).
  - destruct (_ && _); simpl; [|trivial].
    avoid_step. destruct (bool_decide _); simpl; [|trivial].
    avoid_step. simpl. trivial.
  - intros esc _. destruct esc; [apply IH|].
    destruct (skip =? 1); apply IH.
Qed.

Hint Resolve unescape_loop_avoids : avoids.

(** *** Server *)

Lemma server_envokeEvent_avoids s name data :
  (x = NilFuncCall -> Server.events s = ∅) ->
  avoids x (fun _ => True) (Server.envokeEvent s name data).
Proof.
  intros He. unfold Server.envokeEvent.
  destruct (Server.events s !! name) as [[h|]|] eqn:El; simpl; trivial.
  intros <-. rewrite He in El by reflexivity. rewrite lookup_empty in El. discriminate.
Qed.

Lemma server_raw_keeps s data frameType :
  Server.events (Server.raw s data frameType) = Server.events s /\
  incoming (Server.connection (Server.raw s data frameType))
  = incoming (Server.connection s).
Proof.
  unfold Server.raw. destruct (negb _); [auto|].
  unfold conn_Write. destruct (closed _); auto.
Qed.

Lemma server_handleFrame_avoids now s frame :
  (x = NilFuncCall -> Server.events s = ∅) ->
  avoids x (fun r => Server.events (fst r) = Server.events s /\
                     incoming (Server.connection (fst r)) = incoming (Server.connection s))
    (Server.handleFrame now s frame).
Proof.
  intros He. unfold Server.handleFrame.
  destruct (negb _); [simpl; auto|].
  destruct (len frame >? 0); [|simpl; auto].
  avoid_step.
  destruct (bool_decide (_ = Server.FRAME_TYPE_MESSAGE)).
  - destruct (len frame >? 2); [|simpl; auto].
    do 3 avoid_step.
    cbv zeta. destruct (len frame >? 3 + _); [|simpl; auto].
    avoid_step. unfold Server.unescape. avoid_step.
    apply (avoids_bind (fun _ => True)); [apply server_envokeEvent_avoids; assumption|].
    intros evs _. simpl. auto.
  - destruct (bool_decide (_ = Server.FRAME_TYPE_HEARTBEAT)).
    { simpl. apply server_raw_keeps. }
    destruct (bool_decide (_ = Server.FRAME_TYPE_HEARTBEAT_ACK)); simpl; auto.
Qed.

Lemma server_listen_loop_avoids fuel : forall clock i s b,
  (x = NilFuncCall -> Server.events s = ∅) ->
  (x = StillRunning -> (length (pending b (Server.connection s)) < fuel)%nat) ->
  avoids x (fun _ => True) (Server.listen_loop fuel clock i s b).
Proof.
  induction fuel as [|fuel IH]; intros clock i s b He Hf; simpl.
  { intros <-. specialize (Hf eq_refl). lia. }
  destruct (negb _); [simpl; trivial|].
  destruct (bufio_ReadBytes x0a b (Server.connection s)) as [[[recv err] b1] c1] eqn:ER.
  destruct (bufio_ReadBytes_split _ _ _ _ _ _ _ ER) as [Hs Hne].
  destruct err as [err|]; [simpl; trivial|]. simpl Server.failed. cbv iota.
  apply (avoids_bind (fun r => Server.events (fst r) = Server.events s /\
                                incoming (Server.connection (fst r)) = incoming c1)).
  - apply (server_handleFrame_avoids (clock i) (Server.set_connection s c1) recv He).
  - intros [s2 evs] [He2 Hi2]. simpl in He2, Hi2.
    apply (avoids_bind (fun _ => True)); [|intros [s3 evs'] _; simpl; trivial].
    apply IH; [intros Hn; rewrite He2; auto|].
    intros Hsr. specialize (Hf Hsr). unfold pending in *. rewrite Hi2.
    apply (f_equal length) in Hs. rewrite length_app in Hs.
    assert (length recv <> 0)%nat
      by (destruct recv; [exfalso; apply Hne; reflexivity|discriminate]).
    lia.
Qed.

Lemma server_listen_avoids clock srv s hd :
  (x = NilFuncCall -> Server.events s = ∅) ->
  Server.disconnectEvent srv = Some hd ->
  avoids x (fun _ => True) (Server.listen clock srv s).
Proof.
  intros He Hd. unfold Server.listen.
  apply (avoids_bind (fun _ => True)).
  - apply server_listen_loop_avoids; [exact He|].
    intros _. unfold pending. simpl. lia.
  - intros [s1 evs] _. unfold Server.removeSocket. simpl Server.Id. simpl Server.sockets.
    destruct (_ !! _); simpl; rewrite Hd; simpl; trivial.
Qed.

Lemma server_handleConnection_avoids clock srv conn uid hc hd :
  Server.connectEvent srv = Some hc -> Server.disconnectEvent srv = Some hd ->
  avoids x (fun _ => True) (Server.handleConnection clock srv conn uid).
Proof.
  intros Hc Hd.
  unfold Server.handleConnection, Server.addSocket. simpl Server.connectEvent.
  rewrite Hc. simpl Server.invoke. rewrite bind_Ret.
  apply (avoids_bind (fun _ => True)); [|intros [[? ?] ?] _; simpl; trivial].
  apply (server_listen_avoids clock _ _ hd); [reflexivity|exact Hd].
Qed.

(** *** Client, length-prefixed *)

Lemma client_envokeEvent_avoids s name data :
  (x = NilFuncCall -> Client.events s = ∅) ->
  avoids x (fun _ => True) (Client.envokeEvent s name data).
Proof.
  intros He. unfold Client.envokeEvent.
  destruct (Client.events s !! name) as [[h|]|] eqn:El; simpl; trivial.
  intros <-. rewrite He in El by reflexivity. rewrite lookup_empty in El. discriminate.
Qed.

Lemma client_raw_keeps s data frameType :
  Client.events (Client.raw s data frameType) = Client.events s /\
  incoming (Client.connection (Client.raw s data frameType))
  = incoming (Client.connection s).
Proof.
  unfold Client.raw. destruct (negb _); [auto|].
  unfold conn_Write. destruct (closed _); auto.
Qed.

Lemma client_dispatchFrame_avoids now s payload :
  (x = NilFuncCall -> Client.events s = ∅) ->
  avoids x (fun r => Client.events (fst r) = Client.events s /\
                     incoming (Client.connection (fst r)) = incoming (Client.connection s))
    (Client.dispatchFrame now s payload).
Proof.
  intros He. unfold Client.dispatchFrame.
  avoid_step.
  destruct (decide (_ = Client.FRAME_TYPE_MESSAGE)).
  - apply (avoids_bind (fun _ => True)); [|intros; simpl; auto].
    unfold Client.processMessageFrame. destruct (_ >? 3); [|simpl; trivial].
    do 4 avoid_step.
    apply client_envokeEvent_avoids; assumption.
  - destruct (decide (_ = Client.FRAME_TYPE_HEARTBEAT)).
    { simpl. apply client_raw_keeps. }
    destruct (decide (_ = Client.FRAME_TYPE_HEARTBEAT_ACK)); [simpl; auto|].
    simpl. destruct Hx as [-> | ->]; discriminate.
Qed.

Lemma client_listen_loop_avoids fuel : forall clock i s b,
  (x = NilFuncCall -> Client.events s = ∅) ->
  (x = StillRunning -> (length (pending b (Client.connection s)) < fuel)%nat) ->
  avoids x (fun r => Client.events (fst r) = Client.events s)
    (Client.listen_loop fuel clock i s b).
Proof.
  induction fuel as [|fuel IH]; intros clock i s b He Hf.
  { simpl. intros <-. specialize (Hf eq_refl). lia. }
  rewrite listen_loop_S.
  destruct (negb _); [reflexivity|].
  destruct (bufio_Read 4 b (Client.connection s)) as [[[size err] b1] c1] eqn:ER.
  destruct (bufio_Read_split _ _ _ _ _ _ _ ER) as (Hs & _ & _).
  cbv zeta.
  destruct err as [err|]; [reflexivity|]. simpl Client.failed. rewrite orb_false_l.
  destruct (Z.eqb_spec (len size) 4) as [Hsz|]; [|reflexivity]. simpl negb. cbv iota.
  avoid_step.
  destruct (io_ReadFull _ b1 c1) as [[[payload err'] b2] c2] eqn:ERF.
  destruct (io_ReadFull_split _ _ _ _ _ _ _ ERF) as (Hs' & _ & _).
  destruct (_ || _); [reflexivity|].
  apply (avoids_bind (fun r => Client.events (fst r) = Client.events s /\
                                incoming (Client.connection (fst r)) = incoming c2)).
  - apply (client_dispatchFrame_avoids (clock i)
             (Client.set_connection (Client.set_connection s c1) c2) payload He).
  - intros [s3 evs] [He3 Hi3]. simpl in He3, Hi3.
    apply (avoids_bind (fun r => Client.events (fst r) = Client.events s3)).
    + apply IH; [intros Hn; rewrite He3; auto|].
      intros Hsr. specialize (Hf Hsr). unfold pending in *. rewrite Hi3.
      apply (f_equal length) in Hs, Hs'. rewrite length_app in Hs, Hs'.
      unfold len in Hsz. lia.
    + intros [s4 evs'] He4. simpl in *. congruence.
Qed.

Lemma client_listen_avoids clock s :
  (x = NilFuncCall -> Client.events s = ∅) ->
  avoids x (fun _ => True) (Client.listen clock s).
Proof.
  intros He. unfold Client.listen.
  apply (avoids_bind (fun r => Client.events (fst r) = Client.events s)).
  - apply client_listen_loop_avoids; [exact He|].
    intros _. unfold pending. simpl. lia.
  - intros [s1 evs] He1. simpl in He1.
    apply (avoids_bind (fun _ => True)); [|intros [? ?] _; simpl; trivial].
    unfold Client.disconnect. destruct (negb _); [simpl; trivial|].
    apply (avoids_bind (fun _ => True)); [|intros; simpl; trivial].
    apply client_envokeEvent_avoids. intros Hn. simpl. rewrite He1. auto.
Qed.

End Avoiding.

(** ** Termination of the read loops, and handlers before any registration *)

Section Runs.
Import Go Props.

Lemma avoids_nil_safe {A} (P : A -> Prop) (o : Outcome A) :
  avoids NilFuncCall P o -> nil_safe o.
Proof. unfold nil_safe. destruct o as [a|c]; simpl; congruence. Qed.

Lemma avoids_terminates {A} (P : A -> Prop) (o : Outcome A) :
  avoids StillRunning P o -> terminates o.
Proof. unfold terminates. destruct o as [a|c]; simpl; congruence. Qed.

Lemma excluded_nil : excluded NilFuncCall.
Proof. left. reflexivity. Qed.

Lemma excluded_running : excluded StillRunning.
Proof. right. reflexivity. Qed.

(** The read loops end on every stream, with the fuel [listen] gives them. *)
Lemma client_listen_terminates clock s : terminates (Client.listen clock s).
Proof.
  apply (avoids_terminates (fun _ => True)).
  apply client_listen_avoids; [exact excluded_running|discriminate].
Qed.

Lemma server_listen_terminates clock srv s hd :
  Server.disconnectEvent srv = Some hd -> terminates (Server.listen clock srv s).
Proof.
  intros Hd. apply (avoids_terminates (fun _ => True)).
  apply (server_listen_avoids _ excluded_running clock srv s hd); [discriminate|exact Hd].
Qed.

Lemma client_Listen_nil_safe clock s :
  Client.events s = ∅ -> nil_safe (Client.Listen clock s).
Proof.
  intros He. apply (avoids_nil_safe (fun _ => True)). unfold Client.Listen.
  apply (avoids_bind NilFuncCall (fun _ => True)).
  - apply client_envokeEvent_avoids; [exact excluded_nil|auto].
  - intros evs _.
    apply (avoids_bind NilFuncCall (fun _ => True)); [|intros [? ?] _; simpl; trivial].
    apply client_listen_avoids; [exact excluded_nil|auto].
Qed.

(** *** Client, text protocol *)

Lemma legacy_dispatch_all_unregistered s messages :
  LegacyClient.events s = ∅ -> LegacyClient.dispatch_all s messages = Ret [].
Proof.
  intros He. induction messages as [|[event data] rest IH]; [reflexivity|].
  simpl. unfold LegacyClient.dispatch. rewrite He, lookup_empty, bind_Ret, IH. reflexivity.
Qed.

(** C10: [New] of the server and of the client give the connect and the
    disconnect callback a function that does nothing, and an empty event
    registry; while nothing else is registered, the connect path, the
    dispatch of whatever the peer sends and the disconnect path never call
    a nil func (and the read loops end on every stream). *)
Theorem fresh_handlers_never_nil (addr : gostring) (conn : Conn)
    (srv : Server.Server) (lc : LegacyClient.Socket) (c : Client.Socket) :
  Server.New addr true = Some srv ->
  LegacyClient.New (Some conn) = Some lc ->
  Client.New (Some conn) = Some c ->
  (Server.connectEvent srv = Some Server.noop /\
   Server.disconnectEvent srv = Some Server.noop /\
   Server.sockets srv = ∅) /\
  (forall srv' clock conn' uid,
     Server.connectEvent srv' = Server.connectEvent srv ->
     Server.disconnectEvent srv' = Server.disconnectEvent srv ->
     nil_safe (Server.handleConnection clock srv' conn' uid) /\
     terminates (Server.handleConnection clock srv' conn' uid)) /\
  (LegacyClient.connectEvent lc = Some LegacyClient.noop /\
   LegacyClient.disconnectEvent lc = Some LegacyClient.noop /\
   LegacyClient.events lc = ∅) /\
  (forall messages,
     trace (LegacyClient.Listen lc messages)
     = Ret [LegacyClient.CallConnect LegacyClient.noop;
            LegacyClient.CallDisconnect LegacyClient.noop]) /\
  (Client.events c = ∅ /\
   forall clock, nil_safe (Client.Listen clock c) /\ terminates (Client.listen clock c)).
Proof.
  intros [= <-] [= <-] [= <-].
  split; [auto|]. split; [|split; [auto|split; [|split; [reflexivity|]]]].
  - intros srv' clock conn' uid Hc Hd. split.
    + apply (avoids_nil_safe (fun _ => True)).
      apply (server_handleConnection_avoids _ excluded_nil clock srv' conn' uid
               Server.noop Server.noop); assumption.
    + apply (avoids_terminates (fun _ => True)).
      apply (server_handleConnection_avoids _ excluded_running clock srv' conn' uid
               Server.noop Server.noop); assumption.
  - intros messages. unfold LegacyClient.Listen, LegacyClient.socketReceiver. simpl.
    rewrite legacy_dispatch_all_unregistered by reflexivity. reflexivity.
  - intros clock. split; [apply client_Listen_nil_safe; reflexivity|].
    apply client_listen_terminates.
Qed.
Lemma fresh_handlers_never_nil_witness :
  Server.connectEvent served = Some Server.noop /\
  Server.disconnectEvent served = Some Server.noop /\
  Server.sockets served = ∅.
Proof.
  apply (fresh_handlers_never_nil [] (mkConn [] [] false) served
           (LegacyClient.mkSocket (mkConn [] [] false) ∅
              (Some LegacyClient.noop) (Some LegacyClient.noop))
           (dialed []));
    reflexivity.
Defined.
End Runs.

(** ** The read loop of the client on whole frames *)

Section ClientFrames.
Import Go Props Client Scenario.

Lemma io_ReadFull_buffered b c :
  b <> [] -> io_ReadFull (len b) b c = (b, None, [], c).
Proof.
  intros Hb. unfold io_ReadFull.
  assert (Hl : 0 < len b) by (unfold len; destruct b; [congruence|cbn [length]; lia]).
  destruct (Z.to_nat (len b) + length (incoming c))%nat as [|fuel] eqn:E; [lia|].
  cbn [readAtLeast_loop]. change (len []) with 0.
  destruct (Z.ltb_spec 0 (len b)); [|lia].
  unfold bufio_Read. rewrite Z.sub_0_r.
  destruct (Z.eqb_spec (len b) 0); [lia|].
  destruct b as [|y b]; [congruence|].
  replace (Z.to_nat (len (y :: b))) with (length (y :: b)) by (unfold len; lia).
  rewrite firstn_all, skipn_all. cbv beta iota zeta. rewrite app_nil_l.
  destruct fuel; cbn [readAtLeast_loop]; rewrite Z.ltb_irrefl; reflexivity.
Qed.

(** One turn of the loop on a frame that arrives whole: the frame is taken
    off the connection and its payload goes through the frame switch. *)
Lemma listen_loop_whole_frame fuel clock i s payload rest :
  connected s = true -> closed (connection s) = false ->
  incoming (connection s) = (PutUint32 (len payload) ++ payload) :: rest ->
  payload <> [] -> len payload + 4 <= defaultBufSize ->
  listen_loop (S fuel) clock i s []
  = '(s3, evs) ← dispatchFrame (clock i)
       (set_connection s (mkConn rest (outgoing (connection s)) false)) payload;
    '(s4, evs') ← listen_loop fuel clock (S i) s3 [];
    Ret (s4, evs ++ evs').
Proof.
  intros Hc Ho Hi Hne Hsz. pose proof (len_nonneg payload) as Hp.
  assert (Hsz' : len payload + 4 <= 4096) by exact Hsz.
  rewrite listen_loop_S, Hc. simpl negb. cbv iota.
  unfold bufio_Read, conn_Read. rewrite Ho, Hi.
  change (4 =? 0) with false. change (defaultBufSize <=? 4) with false. cbv iota.
  assert (Hlen : len (PutUint32 (len payload) ++ payload) = len payload + 4).
  { rewrite len_app. change (len (PutUint32 _)) with 4. lia. }
  rewrite Hlen.
  destruct (Z.ltb_spec defaultBufSize (len payload + 4)); [lia|].
  rewrite (take_ge _ (Z.to_nat defaultBufSize)).
  2:{ rewrite length_app. change (length (PutUint32 _)) with 4%nat.
      change defaultBufSize with 4096. unfold len in Hsz'. lia. }
  cbn [PutUint32 app]. cbv beta iota zeta.
  change (Z.to_nat 4) with 4%nat. cbn [firstn skipn]. rewrite ?take_0, ?drop_0.
  unfold failed at 1. cbn [orb].
  change (len [_; _; _; _] =? 4) with true. cbn [negb]. cbv iota.
  pose proof (Uint32_PutUint32 (len payload) []) as HU.
  rewrite app_nil_r in HU. unfold PutUint32 in HU. rewrite HU by lia.
  rewrite bind_Ret.
  rewrite (io_ReadFull_buffered payload _ Hne). cbv beta iota zeta.
  rewrite Z.eqb_refl. unfold failed. cbn [orb negb]. cbv iota.
  reflexivity.
Qed.
End ClientFrames.

Section ClientStreams.
Import Go Props Client Scenario.

Lemma envoke_all_events s s' ms :
  events s = events s' -> envoke_all s ms = envoke_all s' ms.
Proof.
  intros H. induction ms as [|[e d] ms IH]; [reflexivity|].
  cbn [envoke_all]. rewrite (envokeEvent_events s s') by exact H. rewrite IH. reflexivity.
Qed.

Lemma messageFrame_shape event data :
  len event + len data + 7 <= defaultBufSize ->
  messageFrame event data
  = PutUint32 (len (FRAME_TYPE_MESSAGE :: PutUint16 (len event) ++ event ++ data))
      ++ FRAME_TYPE_MESSAGE :: PutUint16 (len event) ++ event ++ data.
Proof.
  intros Hsz. change defaultBufSize with 4096 in Hsz.
  pose proof (len_nonneg event). pose proof (len_nonneg data).
  unfold messageFrame, buildFrame.
  set (p := PutUint16 (len event) ++ event ++ data).
  assert (Hp : len p = 2 + len event + len data).
  { unfold p. rewrite !len_app. change (len (PutUint16 _)) with 2. lia. }
  replace (len (FRAME_TYPE_MESSAGE :: p)) with (len p + 1) by (unfold len; cbn [length]; lia).
  rewrite !app_nil_l.
  rewrite uint32_small by (change (2 ^ 32) with 4294967296; lia).
  rewrite <- app_assoc. reflexivity.
Qed.

Lemma listen_loop_ended fuel clock i s :
  connected s = true -> closed (connection s) = false ->
  incoming (connection s) = [] ->
  listen_loop (S fuel) clock i s [] = Ret (s, []).
Proof.
  intros Hc Ho Hi. rewrite listen_loop_S, Hc. simpl negb. cbv iota.
  unfold bufio_Read, conn_Read. rewrite Ho, Hi. simpl.
  destruct s as [id [inc out cl] ev con ack]. simpl in *. subst. reflexivity.
Qed.

Lemma listen_loop_messages ms : forall fuel clock i s,
  connected s = true -> closed (connection s) = false ->
  Forall carried ms ->
  incoming (connection s) = map (fun m => messageFrame (fst m) (snd m)) ms ->
  (length ms < fuel)%nat ->
  listen_loop fuel clock i s []
  = (evs ← envoke_all s ms;
     Ret (set_connection s (mkConn [] (outgoing (connection s)) false), evs)).
Proof.
  induction ms as [|[event data] ms IH]; intros fuel clock i s Hc Ho Hms Hi Hf.
  - destruct fuel as [|fuel]; [simpl in Hf; lia|].
    rewrite (listen_loop_ended fuel clock i s Hc Ho Hi). cbn [envoke_all]. rewrite bind_Ret.
    destruct s as [id [inc out cl] ev con ack]. simpl in *. subst. reflexivity.
  - destruct fuel as [|fuel]; [simpl in Hf; lia|].
    apply Forall_cons in Hms as [(He & Hd & Hsz) Hms]. cbn [fst snd] in He, Hd, Hsz.
    cbn [map fst snd] in Hi. rewrite (messageFrame_shape event data Hsz) in Hi.
    rewrite (listen_loop_whole_frame fuel clock i s _ _ Hc Ho Hi); [|discriminate|].
    2:{ replace (len (FRAME_TYPE_MESSAGE :: PutUint16 (len event) ++ event ++ data))
          with (len event + len data + 3); [lia|].
        unfold len at 3. cbn [length PutUint16 app]. rewrite length_app. unfold len. lia. }
    unfold dispatchFrame.
    change (index (FRAME_TYPE_MESSAGE :: ?p) 0) with (@Ret byte FRAME_TYPE_MESSAGE).
    rewrite bind_Ret.
    destruct (decide (FRAME_TYPE_MESSAGE = FRAME_TYPE_MESSAGE)); [|congruence].
    change (drop 1 (FRAME_TYPE_MESSAGE :: ?p)) with p.
    rewrite processMessageFrame_roundtrip by assumption.
    rewrite (envokeEvent_events _ s) by reflexivity.
    cbn [envoke_all].
    destruct (envokeEvent s event data) as [evs|cr]; [|reflexivity].
    rewrite !bind_Ret. cbv beta iota.
    rewrite IH; [|assumption|reflexivity|assumption|reflexivity|simpl in Hf; lia].
    rewrite (envoke_all_events _ s) by reflexivity.
    destruct (envoke_all s ms) as [evs'|cr]; reflexivity.
Qed.

Lemma length_frames (ms : list (gostring * gostring)) :
  (length ms <= length (concat (map (fun m => messageFrame (fst m) (snd m)) ms)))%nat.
Proof.
  induction ms as [|m ms IH]; [simpl; lia|].
  cbn [map concat]. rewrite length_app. unfold messageFrame at 1, buildFrame.
  cbn [app length PutUint32]. simpl length in *. lia.
Qed.

(** X1: for messages whose frames arrive one after the other, each
    whole, the read loop starts one dispatch per frame, in the order of
    the frames, with the name and the data as sent; at the end of the
    stream the session is disconnected. *)
Theorem listen_dispatches_in_order clock s (ms : list (gostring * gostring)) :
  connected s = true -> closed (connection s) = false ->
  Forall carried ms ->
  incoming (connection s) = map (fun m => messageFrame (fst m) (snd m)) ms ->
  trace (listen clock s)
  = (evs ← envoke_all s ms;
     evs' ← envokeEvent s (str "disconnection") [];
     Ret (evs ++ evs')).
Proof.
  intros Hc Ho Hms Hi. unfold listen.
  rewrite (listen_loop_messages ms _ clock 0%nat s Hc Ho Hms Hi).
  2:{ rewrite Hi. pose proof (length_frames ms). lia. }
  destruct (envoke_all s ms) as [evs|cr]; [|reflexivity].
  rewrite !bind_Ret. cbv beta iota. unfold disconnect. cbn [connected set_connection].
  rewrite Hc. simpl negb. cbv iota.
  rewrite (envokeEvent_events _ s) by reflexivity.
  destruct (envokeEvent s (str "disconnection") []) as [evs'|cr]; reflexivity.
Qed.

Lemma listen_dispatches_in_order_witness :
  trace (listen (fun _ => 0)
           (On (dialed [messageFrame (str "ping") (str "a"); messageFrame (str "pong") [x00; x0a]])
               (str "pong") (Some 3%nat)))
  = Ret [Envoke (str "ping") (str "a"); Envoke (str "pong") [x00; x0a]; Call 3 [x00; x0a];
         Envoke (str "disconnection") []].
Proof.
  apply (listen_dispatches_in_order (fun _ => 0)
           (On (dialed [messageFrame (str "ping") (str "a"); messageFrame (str "pong") [x00; x0a]])
               (str "pong") (Some 3%nat))
           [(str "ping", str "a"); (str "pong", [x00; x0a])]);
    [reflexivity|reflexivity| |reflexivity].
  repeat constructor; vm_compute; discriminate.
Defined.

(** *** Control frames *)

Lemma listen_loop_heartbeats n : forall fuel clock i s,
  connected s = true -> closed (connection s) = false ->
  incoming (connection s) = repeat (buildFrame [] FRAME_TYPE_HEARTBEAT) n ->
  (n < fuel)%nat ->
  listen_loop fuel clock i s []
  = Ret (set_connection s
           (mkConn [] (outgoing (connection s)
                         ++ repeat (buildFrame [] FRAME_TYPE_HEARTBEAT_ACK) n) false), []).
Proof.
  induction n as [|n IH]; intros fuel clock i s Hc Ho Hi Hf.
  - destruct fuel as [|fuel]; [lia|].
    rewrite (listen_loop_ended fuel clock i s Hc Ho Hi). cbn [repeat]. rewrite app_nil_r.
    destruct s as [id [inc out cl] ev con ack]. simpl in *. subst. reflexivity.
  - destruct fuel as [|fuel]; [lia|].
    cbn [repeat] in Hi.
    rewrite (listen_loop_whole_frame fuel clock i s [FRAME_TYPE_HEARTBEAT] _ Hc Ho Hi);
      [|discriminate|vm_compute; discriminate].
    unfold dispatchFrame.
    change (index [FRAME_TYPE_HEARTBEAT] 0) with (@Ret byte FRAME_TYPE_HEARTBEAT).
    rewrite bind_Ret.
    destruct (decide (FRAME_TYPE_HEARTBEAT = FRAME_TYPE_MESSAGE)); [discriminate|].
    destruct (decide (FRAME_TYPE_HEARTBEAT = FRAME_TYPE_HEARTBEAT)); [|congruence].
    rewrite bind_Ret. cbv beta iota.
    unfold raw. cbn [connected set_connection connection]. rewrite Hc. simpl negb. cbv iota.
    unfold conn_Write. cbn [closed snd outgoing incoming].
    rewrite IH; [|assumption|reflexivity|reflexivity|lia].
    cbn [set_connection connection outgoing Id events connected lastHeartbeatAck].
    rewrite <- app_assoc. reflexivity.
Qed.

(** X2: every HEARTBEAT frame received is answered with one HEARTBEAT_ACK
    frame, in order, and nothing is dispatched; at the end of the stream
    the session is disconnected. *)
Theorem heartbeats_are_acknowledged clock s n :
  connected s = true -> closed (connection s) = false ->
  incoming (connection s) = repeat (buildFrame [] FRAME_TYPE_HEARTBEAT) n ->
  listen clock s
  = disconnect (set_connection s
                  (mkConn [] (outgoing (connection s)
                                ++ repeat (buildFrame [] FRAME_TYPE_HEARTBEAT_ACK) n) false)).
Proof.
  intros Hc Ho Hi. unfold listen.
  rewrite (listen_loop_heartbeats n _ clock 0%nat s Hc Ho Hi).
  2:{ rewrite Hi. clear. induction n; simpl in *; lia. }
  rewrite bind_Ret. cbv beta iota.
  destruct (disconnect _) as [[s2 evs]|cr]; reflexivity.
Qed.

Lemma heartbeats_are_acknowledged_witness :
  listen (fun _ => 0) (dialed (repeat (buildFrame [] FRAME_TYPE_HEARTBEAT) 3))
  = disconnect (set_connection (dialed (repeat (buildFrame [] FRAME_TYPE_HEARTBEAT) 3))
                  (mkConn [] ([] ++ repeat (buildFrame [] FRAME_TYPE_HEARTBEAT_ACK) 3) false)).
Proof.
  apply (heartbeats_are_acknowledged (fun _ => 0)
           (dialed (repeat (buildFrame [] FRAME_TYPE_HEARTBEAT) 3)) 3); reflexivity.
Defined.

(** *** Frames that end the process *)

(** X3: a frame of a type other than MESSAGE, HEARTBEAT and HEARTBEAT_ACK
    ends the whole process ([log.Fatalln]), whatever follows it. *)
Theorem unknown_frame_type_is_fatal clock s (t : byte) body rest :
  connected s = true -> closed (connection s) = false ->
  t <> FRAME_TYPE_MESSAGE -> t <> FRAME_TYPE_HEARTBEAT -> t <> FRAME_TYPE_HEARTBEAT_ACK ->
  len body + 5 <= defaultBufSize ->
  incoming (connection s) = buildFrame body t :: rest ->
  listen clock s = Crash FatalLog.
Proof.
  intros Hc Ho H1 H2 H3 Hsz Hi. unfold listen.
  assert (Hshape : buildFrame body t = PutUint32 (len (t :: body)) ++ t :: body).
  { unfold buildFrame. cbn [app]. pose proof (len_nonneg body).
    change defaultBufSize with 4096 in Hsz.
    replace (len (t :: body)) with (len body + 1) by (unfold len; cbn [length]; lia).
    rewrite uint32_small by (change (2 ^ 32) with 4294967296; lia). reflexivity. }
  rewrite Hshape in Hi.
  rewrite (listen_loop_whole_frame _ clock 0%nat s (t :: body) rest Hc Ho Hi); [|discriminate|].
  2:{ unfold len in *. cbn [length]. lia. }
  unfold dispatchFrame. change (index (t :: body) 0) with (@Ret byte t). rewrite bind_Ret.
  destruct (decide (t = FRAME_TYPE_MESSAGE)); [contradiction|].
  destruct (decide (t = FRAME_TYPE_HEARTBEAT)); [contradiction|].
  destruct (decide (t = FRAME_TYPE_HEARTBEAT_ACK)); [contradiction|].
  reflexivity.
Qed.

Lemma unknown_frame_type_is_fatal_witness :
  listen (fun _ => 0) (dialed [buildFrame (str "x") x01; buildFrame [] FRAME_TYPE_HEARTBEAT])
  = Crash FatalLog.
Proof.
  apply (unknown_frame_type_is_fatal (fun _ => 0)
           (dialed [buildFrame (str "x") x01; buildFrame [] FRAME_TYPE_HEARTBEAT])
           x01 (str "x") [buildFrame [] FRAME_TYPE_HEARTBEAT]);
    try reflexivity; try discriminate.
Defined.

(** X4: a length prefix of zero makes the read loop index an empty
    payload: the process panics, whatever follows the prefix. *)
Theorem zero_length_frame_panics clock s tail rest :
  connected s = true -> closed (connection s) = false ->
  incoming (connection s) = ([x00; x00; x00; x00] ++ tail) :: rest ->
  listen clock s = Crash IndexOutOfRange.
Proof.
  intros Hc Ho Hi. unfold listen. rewrite listen_loop_S, Hc. simpl negb. cbv iota.
  destruct (bufio_Read_first 4 (connection s) _ rest Ho Hi) as (b1 & c1 & -> & _);
    [unfold defaultBufSize; lia|unfold len; cbn [app length]; lia|].
  change (Z.to_nat 4) with 4%nat. cbn [app firstn]. rewrite take_0.
  cbv beta iota zeta. unfold failed at 1. cbn [orb].
  change (len [x00; x00; x00; x00] =? 4) with true. cbn [negb]. cbv iota.
  change (Uint32 [x00; x00; x00; x00]) with (@Ret Z 0). rewrite bind_Ret.
  unfold io_ReadFull.
  assert (Hz : forall fuel b c, readAtLeast_loop fuel 0 [] b c = ([], None, b, c))
    by (intros [|fuel] b c; reflexivity).
  rewrite Hz. cbv beta iota zeta. reflexivity.
Qed.

Lemma zero_length_frame_panics_witness :
  listen (fun _ => 0) (dialed [[x00; x00; x00; x00] ++ [x5a]]) = Crash IndexOutOfRange.
Proof.
  apply (zero_length_frame_panics (fun _ => 0) (dialed [[x00; x00; x00; x00] ++ [x5a]]) [x5a] []);
    reflexivity.
Defined.
End ClientStreams.

(** ** Sessions of the client *)

Section ClientSession.
Import Go Props Client Scenario.




(** X6: the event registry of a session.  [On] replaces the handler of
    a name, so the last registration is the one called; a nil handler
    registered makes the dispatch of its name call a nil func; [Off]
    removes the handler; neither touches another name, and [Off] of a
    name that is not registered changes nothing. *)
Theorem registry_last_write_wins (s : Socket) (event other : gostring) (h1 h2 : nat)
    (cb : MessageHandler) (data : gostring) :
  other <> event ->
  envokeEvent (On s event (Some h1)) event data = Ret [Envoke event data; Call h1 data] /\
  envokeEvent (On (On s event (Some h1)) event (Some h2)) event data
  = Ret [Envoke event data; Call h2 data] /\
  envokeEvent (On s event None) event data = Crash NilFuncCall /\
  envokeEvent (Off (On s event cb) event) event data = Ret [Envoke event data] /\
  envokeEvent (On s event cb) other data = envokeEvent s other data /\
  envokeEvent (Off s event) other data = envokeEvent s other data /\
  (events s !! event = None -> Off s event = s).
Proof.
  intros Hne. unfold envokeEvent, On, Off. cbn [events set_events].
  repeat split.
  - rewrite lookup_insert_eq. reflexivity.
  - rewrite lookup_insert_eq. reflexivity.
  - rewrite lookup_insert_eq. reflexivity.
  - rewrite lookup_insert_eq. cbn [events set_events]. rewrite lookup_delete_eq. reflexivity.
  - rewrite lookup_insert_ne by congruence. reflexivity.
  - destruct (events s !! event); [|reflexivity].
    cbn [events set_events]. rewrite lookup_delete_ne by congruence. reflexivity.
  - intros ->. reflexivity.
Qed.

Lemma registry_last_write_wins_witness :
  envokeEvent (On (On (dialed []) (str "x") (Some 1%nat)) (str "x") (Some 2%nat)) (str "x") (str "d")
  = Ret [Envoke (str "x") (str "d"); Call 2 (str "d")].
Proof.
  apply (registry_last_write_wins (dialed []) (str "x") (str "y") 1%nat 2%nat None (str "d")).
  vm_compute. discriminate.
Defined.

(** X7: a session that has been disconnected stays inert: sending writes
    nothing, a heartbeat round stops at once, the read loop does not read,
    and another [disconnect()] calls nothing. *)
Theorem disconnected_session_is_inert (s s' : Socket) (evs : list Event) :
  disconnect s = Ret (s', evs) ->
  connected s' = false /\ closed (connection s') = true /\
  (forall event data, emit s' event data = s') /\
  (forall data t, raw s' data t = s') /\
  (forall start during, heartbeatRound start during s' = (s', Disconnected)) /\
  (forall clock, listen clock s' = Ret (s', [])) /\
  disconnect s' = Ret (s', []).
Proof.
  unfold disconnect at 1.
  assert (Hin : forall t, connected t = false -> closed (connection t) = true ->
            (forall event data, emit t event data = t) /\
            (forall data ft, raw t data ft = t) /\
            (forall start during, heartbeatRound start during t = (t, Disconnected)) /\
            (forall clock, listen clock t = Ret (t, [])) /\
            disconnect t = Ret (t, [])).
  { intros t Hc Hcl.
    assert (Hd : disconnect t = Ret (t, [])).
    { unfold disconnect. rewrite Hc. simpl negb. cbv iota.
      destruct t as [id [inc out cl] ev con ack]. simpl in *. subst. reflexivity. }
    repeat split.
    - intros. unfold emit. rewrite Hc. reflexivity.
    - intros. unfold raw. rewrite Hc. reflexivity.
    - intros. unfold heartbeatRound. rewrite Hc. reflexivity.
    - intros. unfold listen. cbn [listen_loop]. rewrite Hc. simpl negb. cbv iota.
      rewrite bind_Ret. cbv beta iota. rewrite Hd. reflexivity.
    - exact Hd. }
  destruct (connected s) eqn:Hc; simpl negb; cbv iota.
  - destruct (envokeEvent _ _ _) as [e|c]; [|discriminate].
    rewrite bind_Ret. intros [= <- <-]. split; [reflexivity|]. split; [reflexivity|].
    apply Hin; reflexivity.
  - intros [= <- <-]. split; [exact Hc|]. split; [reflexivity|].
    apply Hin; [exact Hc|reflexivity].
Qed.

Lemma disconnected_session_is_inert_witness :
  disconnect (mkSocket [] (mkConn [] [] true) ∅ false 0)
  = Ret (mkSocket [] (mkConn [] [] true) ∅ false 0, []).
Proof.
  apply (disconnected_session_is_inert (dialed []) (mkSocket [] (mkConn [] [] true) ∅ false 0)
           [Envoke (str "disconnection") []]).
  reflexivity.
Defined.

(** *** Heartbeat rounds that are acknowledged *)

Lemma raw_heartbeat s :
  connected s = true -> closed (connection s) = false ->
  raw s [] FRAME_TYPE_HEARTBEAT
  = set_connection s (mkConn (incoming (connection s))
                        (outgoing (connection s) ++ [buildFrame [] FRAME_TYPE_HEARTBEAT]) false).
Proof.
  intros Hc Ho. unfold raw. rewrite Hc. simpl negb. cbv iota.
  unfold conn_Write. rewrite Ho. reflexivity.
Qed.

(** X8: as long as every probe is acknowledged within the interval, the
    monitor goes on: each round writes one HEARTBEAT frame and leaves the
    session connected. *)
Theorem acknowledged_rounds_continue (pts : list (Z * Z)) : forall rest s,
  connected s = true -> closed (connection s) = false ->
  Forall in_time pts ->
  startHeartbeat (map acked_round pts ++ rest) s
  = startHeartbeat rest
      (mkSocket (Id s)
         (mkConn (incoming (connection s))
            (outgoing (connection s)
               ++ repeat (buildFrame [] FRAME_TYPE_HEARTBEAT) (length pts)) false)
         (events s) true (fold_left (fun _ p => snd p) pts (lastHeartbeatAck s))).
Proof.
  induction pts as [|[start t] pts IH]; intros rest s Hc Ho Hpts.
  - cbn [map app length repeat fold_left]. rewrite app_nil_r.
    destruct s as [id [inc out cl] ev con ack]. simpl in *. subst. reflexivity.
  - apply Forall_cons in Hpts as [[Ht Hst] Hpts]. cbn [fst snd] in Ht, Hst.
    unfold HEARTBEAT_INTERVAL in Hst.
    cbn [map app startHeartbeat acked_round fst snd].
    unfold heartbeatRound. rewrite Hc. simpl negb. cbv iota.
    rewrite (raw_heartbeat s Hc Ho). unfold set_lastHeartbeatAck, set_connection.
    cbn [connected lastHeartbeatAck connection Id events]. rewrite Hc. simpl negb. cbv iota.
    assert (He : heartbeatExpired t start = false).
    { unfold heartbeatExpired, HEARTBEAT_INTERVAL.
      rewrite int64_small by lia.
      destruct (Z.eqb_spec t 0); [lia|].
      destruct (Z.gtb_spec (t - start) (10 * 1000)); [lia|reflexivity]. }
    rewrite He.
    rewrite IH; [|reflexivity|reflexivity|assumption].
    cbn [Id connection events incoming outgoing lastHeartbeatAck length repeat].
    rewrite <- app_assoc. cbn [app].
    reflexivity.
Qed.

Lemma acknowledged_rounds_continue_witness :
  startHeartbeat (map acked_round [(1000, 1003); (11003, 11009)] ++ [(21009, fun s => s)])
    (dialed [])
  = startHeartbeat [(21009, fun s => s)]
      (mkSocket [] (mkConn [] ([] ++ repeat (buildFrame [] FRAME_TYPE_HEARTBEAT) 2) false)
         ∅ true 11009).
Proof.
  apply (acknowledged_rounds_continue [(1000, 1003); (11003, 11009)]
           [(21009, fun s => s)] (dialed [])); [reflexivity|reflexivity|].
  constructor; [unfold in_time, HEARTBEAT_INTERVAL; cbn [fst snd]; lia|].
  constructor; [unfold in_time, HEARTBEAT_INTERVAL; cbn [fst snd]; lia|].
  constructor.
Defined.
End ClientSession.

(** ** The session set and the life of a connection on the server *)

Section Sessions.
Import Go Props Server Scenario.

Lemma server_send_Id s event data frameType : Id (send s event data frameType) = Id s.
Proof.
  unfold send. destruct (negb _); [reflexivity|].
  destruct (buildMessageFrame _ _ _); reflexivity.
Qed.

(** X9: the session set stays keyed by session id under every operation
    that writes it. *)
Theorem session_set_keyed (srv : Server) (conn : Conn) (uid : gostring) (s : Socket)
    (event data : gostring) :
  keyed srv ->
  keyed (fst (addSocket srv conn uid)) /\
  keyed (fst (removeSocket srv s)) /\
  keyed (Broadcast srv s event data) /\
  keyed (ServerEmit srv event data).
Proof.
  intros Hk. repeat split.
  - intros id s0. unfold addSocket. cbn [fst sockets set_sockets].
    destruct (decide (id = uid)) as [->|Hne].
    + rewrite lookup_insert_eq. intros [= <-]. reflexivity.
    + rewrite lookup_insert_ne by congruence. apply Hk.
  - intros id s0. unfold removeSocket.
    destruct (sockets srv !! Id s) eqn:El; cbn [fst sockets set_sockets]; [|apply Hk].
    destruct (decide (id = Id s)) as [->|Hne].
    + rewrite lookup_delete_eq. discriminate.
    + rewrite lookup_delete_ne by congruence. apply Hk.
  - intros id s0. unfold Broadcast. cbn [sockets set_sockets].
    rewrite map_lookup_imap.
    destruct (sockets srv !! id) as [s1|] eqn:El; [|discriminate].
    cbn. intros [= <-]. destruct (decide (id = Id s)); [apply Hk; exact El|].
    unfold Emit, emit. rewrite server_send_Id. apply Hk. exact El.
  - intros id s0. unfold ServerEmit. cbn [sockets set_sockets].
    rewrite lookup_fmap.
    destruct (sockets srv !! id) as [s1|] eqn:El; [|discriminate].
    cbn. intros [= <-]. unfold Emit, emit. rewrite server_send_Id. apply Hk. exact El.
Qed.

Lemma session_set_keyed_witness :
  keyed (fst (addSocket served (mkConn [] [] false) (str "a"))).
Proof.
  apply (session_set_keyed served (mkConn [] [] false) (str "a") (accepted [])
           (str "e") (str "d")).
  intros id s. unfold served. cbn [sockets]. rewrite lookup_empty. discriminate.
Defined.

(** X10: a session added under a fresh id and removed again leaves the
    server as it was, with the session's flag cleared; removing a session
    a second time changes nothing. *)
Theorem addSocket_removeSocket (srv : Server) (conn : Conn) (uid : gostring) (s : Socket) :
  sockets srv !! uid = None ->
  removeSocket (fst (addSocket srv conn uid)) (snd (addSocket srv conn uid))
  = (srv, mkSocket uid conn ∅ false 0) /\
  removeSocket (fst (removeSocket srv s)) (snd (removeSocket srv s)) = removeSocket srv s.
Proof.
  intros Hfresh. split.
  - unfold addSocket, removeSocket. cbn [fst snd sockets set_sockets Id].
    rewrite lookup_insert_eq. unfold set_sockets, set_connected.
    cbn [sockets address connectEvent disconnectEvent Id connection events lastHeartbeatAck].
    rewrite delete_insert_id by exact Hfresh. destruct srv; reflexivity.
  - unfold removeSocket at 2 3.
    destruct (sockets srv !! Id s) eqn:El; cbn [fst snd].
    + unfold removeSocket. cbn [sockets set_sockets Id set_connected].
      rewrite lookup_delete_eq, El. reflexivity.
    + unfold removeSocket. rewrite El. reflexivity.
Qed.

Lemma addSocket_removeSocket_witness :
  removeSocket (fst (addSocket served (mkConn [] [] false) (str "a")))
               (snd (addSocket served (mkConn [] [] false) (str "a")))
  = (served, mkSocket (str "a") (mkConn [] [] false) ∅ false 0).
Proof.
  apply (addSocket_removeSocket served (mkConn [] [] false) (str "a") (accepted [])).
  reflexivity.
Defined.

(** X11: [Broadcast] from a session is [Server.Emit] with the sender's
    entry left as it was; both keep the set of ids, and a session that is
    not connected gets nothing written. *)
Theorem Broadcast_is_Emit_but_sender (srv : Server) (s : Socket) (event data : gostring)
    (id : gostring) :
  sockets (Broadcast srv s event data) !! id
  = (if decide (id = Id s) then sockets srv !! id
     else sockets (ServerEmit srv event data) !! id) /\
  dom (sockets (ServerEmit srv event data)) = dom (sockets srv) /\
  dom (sockets (Broadcast srv s event data)) = dom (sockets srv) /\
  (forall s0, sockets srv !! id = Some s0 -> connected s0 = false ->
     sockets (ServerEmit srv event data) !! id = Some s0).
Proof.
  unfold Broadcast, ServerEmit. cbn [sockets set_sockets]. repeat split.
  - rewrite map_lookup_imap, lookup_fmap.
    destruct (sockets srv !! id) as [s0|]; cbn; destruct (decide (id = Id s)); reflexivity.
  - apply dom_fmap_L.
  - apply set_eq. intros k. rewrite !elem_of_dom, map_lookup_imap.
    destruct (sockets srv !! k); cbn; split; intros [? ?]; eauto; discriminate.
  - intros s0 El Hc. rewrite lookup_fmap, El. cbn.
    unfold Emit, emit, send. rewrite Hc. reflexivity.
Qed.
End Sessions.

Section Lifecycle.
Import Go Props Server Scenario.










End Lifecycle.

(** ** Escaped newlines in the data of the server's frames *)

Section Unescape.
Import Go Props Server Scenario.

Lemma index_app_mid (pre mid : list byte) a rest :
  index (pre ++ mid ++ a :: rest) (len pre + len mid) = Ret a.
Proof.
  unfold index. pose proof (len_nonneg pre). pose proof (len_nonneg mid).
  pose proof (len_nonneg rest).
  rewrite !len_app. replace (len (a :: rest)) with (len rest + 1) by (unfold len; cbn [length]; lia).
  destruct (Z.leb_spec 0 (len pre + len mid)); [|lia].
  destruct (Z.ltb_spec (len pre + len mid) (len pre + (len mid + (len rest + 1)))); [|lia].
  cbn [andb]. rewrite app_assoc.
  replace (Z.to_nat (len pre + len mid)) with (length (pre ++ mid))
    by (rewrite length_app; unfold len; lia).
  rewrite nth_error_app2 by lia. rewrite Nat.sub_diag. reflexivity.
Qed.

Lemma index_at (pre : list byte) a rest : index (pre ++ a :: rest) (len pre) = Ret a.
Proof.
  pose proof (index_app_mid pre [] a rest) as H. change (len []) with 0 in H.
  rewrite Z.add_0_r in H. exact H.
Qed.

Lemma index_end (l : list byte) : index l (len l) = Crash IndexOutOfRange.
Proof. unfold index. rewrite Z.ltb_irrefl, andb_false_r. reflexivity. Qed.

Lemma ends_backslash_cons a l : l <> [] -> ends_backslash (a :: l) = ends_backslash l.
Proof. intros Hl. unfold ends_backslash. destruct l; [congruence|reflexivity]. Qed.

Lemma len_cons {A} (a : A) l : len (a :: l) = len l + 1.
Proof. unfold len. cbn [length]. lia. Qed.

(** The loop of [listen] that takes the escape sequences out, from any
    position it reaches with nothing to skip. *)
Lemma unescape_loop_decoded n : forall suf pre filtered,
  (length suf <= n)%nat ->
  unescape_loop (length suf) (pre ++ suf) (len pre) 0 filtered
  = if ends_backslash suf then Crash IndexOutOfRange else Ret (filtered ++ decoded suf).
Proof.
  induction n as [|n IH]; intros suf pre filtered Hn.
  { destruct suf; [|cbn in Hn; lia]. cbn. rewrite app_nil_r. reflexivity. }
  destruct suf as [|a l1]; [cbn; rewrite app_nil_r; reflexivity|].
  assert (Hstep : unescape_loop (length l1) (pre ++ a :: l1) (len pre + 1) 0 (filtered ++ [a])
                  = if ends_backslash l1 then Crash IndexOutOfRange
                    else Ret (filtered ++ a :: decoded l1)).
  { pose proof (IH l1 (pre ++ [a]) (filtered ++ [a])) as H.
    rewrite <- !app_assoc, len_app in H. cbn [app] in H. change (len [a]) with 1 in H.
    apply H. cbn in Hn. lia. }
  cbn [length unescape_loop]. change (0 >? 1) with false. cbv iota.
  rewrite index_at, bind_Ret. change (0 =? 1) with false.
  rewrite len_app, len_cons.
  destruct (bool_decide (a = x5c)) eqn:Ea; cbn [andb].
  2:{ rewrite bind_Ret. cbv iota. rewrite Hstep.
      destruct l1 as [|b l2].
      - unfold ends_backslash. cbn. rewrite Ea. reflexivity.
      - rewrite (ends_backslash_cons a (b :: l2)) by discriminate.
        destruct l2 as [|c l3]; [reflexivity|].
        cbn [decoded]. unfold is_escape. rewrite Ea. reflexivity. }
  apply bool_decide_eq_true in Ea. subst a.
  destruct l1 as [|b l2].
  { (* the last byte is a backslash *)
    change (len []) with 0.
    destruct (Z.eqb_spec (len pre) (len pre + (0 + 1) - 2)); [lia|]. cbn [negb].
    replace (len pre + 1) with (len (pre ++ [x5c])) by (rewrite len_app; reflexivity).
    rewrite index_end. reflexivity. }
  destruct l2 as [|c l3].
  { (* one byte follows: no test *)
    rewrite len_cons. change (len []) with 0.
    destruct (Z.eqb_spec (len pre) (len pre + (0 + 1 + 1) - 2)); [|lia]. cbn [negb].
    rewrite bind_Ret. cbv iota. rewrite Hstep.
    rewrite (ends_backslash_cons x5c [b]) by discriminate. reflexivity. }
  rewrite !len_cons. pose proof (len_nonneg l3).
  destruct (Z.eqb_spec (len pre) (len pre + (len l3 + 1 + 1 + 1) - 2)); [lia|]. cbn [negb].
  pose proof (index_app_mid pre [x5c] b (c :: l3)) as I1.
  change (len [x5c]) with 1 in I1. cbn [app] in I1. rewrite I1, bind_Ret.
  pose proof (index_app_mid pre [x5c; b] c l3) as I2.
  change (len [x5c; b]) with 2 in I2. cbn [app] in I2.
  rewrite (ends_backslash_cons x5c (b :: c :: l3)) by discriminate.
  destruct (bool_decide (b = x5c)) eqn:Eb.
  2:{ rewrite bind_Ret. cbv iota. rewrite Hstep. cbn [decoded]. unfold is_escape.
      rewrite Eb. cbn [andb bool_decide]. reflexivity. }
  replace (len pre + 1 + 1) with (len pre + 2) by lia.
  rewrite I2, !bind_Ret.
  destruct (bool_decide (c = x00)) eqn:Ec.
  2:{ cbv iota. rewrite Hstep. cbn [decoded]. unfold is_escape.
      rewrite Eb, Ec. rewrite andb_false_r. reflexivity. }
  cbv iota. apply bool_decide_eq_true in Eb, Ec. subst b c.
  (* the two positions after the start of an escape sequence *)
  cbn [length unescape_loop]. change (2 >? 1) with true. cbv iota.
  change (2 - 1) with 1. change (1 >? 1) with false. cbv iota.
  replace (len pre + 1 + 1) with (len pre + 2) by lia.
  rewrite I2, bind_Ret. change (bool_decide (x00 = x5c)) with false. cbn [andb].
  rewrite bind_Ret. cbv iota. change (1 =? 1) with true. cbv iota. change (1 - 1) with 0.
  pose proof (IH l3 (pre ++ [x5c; x5c; x00]) (filtered ++ [x0a])) as H3.
  rewrite <- !app_assoc, len_app in H3. cbn [app] in H3.
  change (len [x5c; x5c; x00]) with 3 in H3.
  replace (len pre + 2 + 1) with (len pre + 3) by lia.
  rewrite H3 by (cbn in Hn; lia).
  cbn [decoded]. change (is_escape x5c x5c x00) with true. cbv iota.
  destruct l3 as [|d l4].
  - reflexivity.
  - rewrite (ends_backslash_cons x5c) by discriminate.
    rewrite (ends_backslash_cons x00) by discriminate. reflexivity.
Qed.

Lemma unescape_decoded data :
  unescape data = if ends_backslash data then Crash IndexOutOfRange else Ret (decoded data).
Proof.
  unfold unescape.
  exact (unescape_loop_decoded (length data) data [] [] (Nat.le_refl _)).
Qed.


Lemma replace_byte_cons x new a l :
  replace_byte x new (a :: l) = (if decide (a = x) then new else [a]) ++ replace_byte x new l.
Proof. reflexivity. Qed.


Lemma ends_backslash_app l1 l2 : l2 <> [] -> ends_backslash (l1 ++ l2) = ends_backslash l2.
Proof.
  intros Hl. induction l1 as [|a l1 IH]; [reflexivity|].
  cbn [app]. rewrite ends_backslash_cons; [exact IH|].
  destruct l1; [exact Hl|discriminate].
Qed.

Lemma ends_backslash_escaped data :
  ends_backslash (replace_byte x0a [x5c; x5c; x00] data) = ends_backslash data.
Proof.
  induction data as [|a rest IH]; [reflexivity|].
  rewrite replace_byte_cons.
  destruct rest as [|r rest'].
  - cbn [replace_byte flat_map]. rewrite app_nil_r.
    destruct (decide (a = x0a)) as [->|]; reflexivity.
  - rewrite ends_backslash_app.
    + rewrite IH. symmetry. apply ends_backslash_cons. discriminate.
    + rewrite replace_byte_cons. destruct (decide (r = x0a)); discriminate.
Qed.


End Unescape.

(** ** Frames of the server, read from the stream *)

Section Framing.
Import Go Props Server Scenario.

Lemma split_delim_None (d : byte) (l : list byte) : split_delim d l = None -> d ∉ l.
Proof.
  induction l as [|x l IH]; cbn [split_delim]; intros H.
  - apply not_elem_of_nil.
  - destruct (decide (x = d)); [discriminate|].
    destruct (split_delim d l) as [[? ?]|]; [discriminate|].
    apply not_elem_of_cons. split; [congruence|auto].
Qed.

Lemma split_delim_Some (d : byte) (l : list byte) : forall pre post,
  split_delim d l = Some (pre, post) ->
  exists p, pre = p ++ [d] /\ (d ∉ p) /\ l = p ++ d :: post.
Proof.
  induction l as [|x l IH]; intros pre post; cbn [split_delim]; [discriminate|].
  destruct (decide (x = d)) as [->|Hx].
  - intros [= <- <-]. exists []. split; [reflexivity|]. split; [apply not_elem_of_nil|reflexivity].
  - destruct (split_delim d l) as [[pre' post']|]; [|discriminate].
    intros [= <- <-]. destruct (IH pre' post' eq_refl) as (p & -> & Hp & ->).
    exists (x :: p). split; [reflexivity|]. split; [|reflexivity].
    apply not_elem_of_cons. split; [congruence|exact Hp].
Qed.

(** A prefix without the delimiter lies before its first occurrence. *)
Lemma before_first (d : byte) : forall (l r body more : list byte),
  d ∉ l -> d ∉ body -> l ++ r = body ++ d :: more ->
  exists body', body = l ++ body' /\ r = body' ++ d :: more.
Proof.
  induction l as [|x l IH]; intros r body more Hl Hb E.
  - exists body. auto.
  - apply not_elem_of_cons in Hl as [Hx Hl].
    destruct body as [|y body]; cbn [app] in E.
    + injection E as E _. congruence.
    + injection E as -> E. apply not_elem_of_cons in Hb as [_ Hb].
      destruct (IH r body more Hl Hb E) as (body' & -> & ->).
      exists body'. auto.
Qed.

(** The first occurrence of the delimiter is where the frame ends. *)
Lemma first_delim (d : byte) (p q r body more : list byte) :
  d ∉ p -> d ∉ body -> (p ++ d :: q) ++ r = body ++ d :: more ->
  p = body /\ q ++ r = more.
Proof.
  intros Hp Hb E. rewrite <- app_assoc in E. cbn [app] in E.
  destruct (before_first d p (d :: q ++ r) body more Hp Hb E) as (body' & -> & E2).
  destruct body' as [|y body'].
  - cbn [app] in E2. injection E2 as E2. rewrite app_nil_r. auto.
  - cbn [app] in E2. injection E2 as <- _. exfalso. apply Hb.
    apply elem_of_app. right. left.
Qed.

Lemma readBytes_chunks_frame (d : byte) : forall chunks (acc body more : list byte),
  d ∉ body -> concat chunks = body ++ d :: more ->
  exists b' rest,
    readBytes_chunks d acc chunks = (acc ++ body ++ [d], None, b', rest) /\
    b' ++ concat rest = more.
Proof.
  induction chunks as [|ch chunks IH]; intros acc body more Hb E; cbn [concat] in E.
  - destruct body; discriminate.
  - cbn [readBytes_chunks].
    destruct (split_delim d ch) as [[pre post]|] eqn:Es.
    + destruct (split_delim_Some d ch pre post Es) as (p & -> & Hp & ->).
      destruct (first_delim d p post (concat chunks) body more Hp Hb E) as [-> Hm].
      eexists _, _. split; [reflexivity|exact Hm].
    + pose proof (split_delim_None _ _ Es) as Hch.
      destruct (before_first d ch (concat chunks) body more Hch Hb E) as (body' & -> & E2).
      destruct (IH (acc ++ ch) body' more) as (b' & rest & -> & Hm); [|exact E2|].
      { intros Hin. apply Hb. apply elem_of_app. right. exact Hin. }
      eexists _, _. split; [|exact Hm]. rewrite <- !app_assoc. reflexivity.
Qed.

(** [ReadBytes] hands over the bytes up to the first delimiter, however
    the stream is cut into reads. *)
Lemma bufio_ReadBytes_frame (d : byte) b c (body more : list byte) :
  d ∉ body -> closed c = false -> pending b c = body ++ d :: more ->
  exists b' c',
    bufio_ReadBytes d b c = (body ++ [d], None, b', c') /\
    pending b' c' = more /\ closed c' = false /\ outgoing c' = outgoing c.
Proof.
  intros Hb Hc E. unfold bufio_ReadBytes, pending in *.
  destruct (split_delim d b) as [[pre post]|] eqn:Es.
  - destruct (split_delim_Some d b pre post Es) as (p & -> & Hp & ->).
    destruct (first_delim d p post (concat (incoming c)) body more Hp Hb E) as [-> Hm].
    eexists _, _. split; [reflexivity|]. auto.
  - rewrite Hc.
    pose proof (split_delim_None _ _ Es) as Hnb.
    destruct (before_first d b (concat (incoming c)) body more Hnb Hb E) as (body' & -> & E2).
    destruct (readBytes_chunks_frame d (incoming c) b body' more) as (b' & rest & -> & Hm);
      [|exact E2|].
    { intros Hin. apply Hb. apply elem_of_app. right. exact Hin. }
    eexists _, _. split; [rewrite <- app_assoc; reflexivity|]. cbn. auto.
Qed.

End Framing.

Section ServerCodec.
Import Go Props Server Scenario.





(** The header [buildMessageFrameHeader] writes for a name it accepts. *)
Lemma header_shape event frameType :
  len event <= 65534 ->
  exists pad : nat,
    buildMessageFrameHeader event frameType
    = inl ([frameType]
             ++ PutUint16 (len (remove_byte x0a event) + Z.of_nat pad)
             ++ remove_byte x0a event ++ repeat x00 pad) /\
    (x0a ∉ PutUint16 (len (remove_byte x0a event) + Z.of_nat pad)) /\
    (len event <= 65532 -> len (remove_byte x0a event) + Z.of_nat pad <= 65532) /\
    (65533 <= len (remove_byte x0a event) -> pad = 0%nat).
Proof.
  intros Hl. unfold buildMessageFrameHeader.
  destruct (Z.gtb_spec (len event) (2 ^ 16 - 2)) as [Hgt|_];
    [change (2 ^ 16 - 2) with 65534 in Hgt; lia|].
  pose proof (len_remove_byte x0a event) as Hn.
  set (name := remove_byte x0a event) in *.
  cbv zeta.
  rewrite Z.quot_div_nonneg, Z.rem_mod_nonneg by lia.
  pose proof (Z.div_mod (len name) 256 ltac:(lia)) as Hdm.
  pose proof (Z.mod_pos_bound (len name) 256 ltac:(lia)) as Hm.
  destruct (Z.eqb_spec (len name / 256) 10) as [Hq|Hq].
  - exists (Z.to_nat (256 - len name mod 256)).
    assert (Hv : len name + Z.of_nat (Z.to_nat (256 - len name mod 256)) = 2816) by lia.
    split; [|split; [|split]].
    + rewrite len_app, len_repeat, Hv. rewrite uint16_small by (change (2 ^ 16) with 65536; lia).
      simpl app. reflexivity.
    + rewrite Hv. rewrite newline_in_PutUint16 by (change (2 ^ 16) with 65536; lia).
      change (2816 / 256) with 11. change (2816 mod 256) with 0. lia.
    + lia.
    + lia.
  - destruct (Z.eqb_spec (len name mod 256) 10) as [Hr|Hr].
    + exists 1%nat. split; [|split; [|split]].
      * rewrite len_app. change (len [x00]) with 1.
        rewrite uint16_small by (change (2 ^ 16) with 65536; lia).
        simpl app. reflexivity.
      * rewrite newline_in_PutUint16 by (change (2 ^ 16) with 65536; lia).
        change (Z.of_nat 1) with 1.
        assert ((len name + 1) / 256 = len name / 256 /\ (len name + 1) mod 256 = 11) as [-> ->].
        { clear Hdm. Z.div_mod_to_equations. lia. }
        lia.
      * change (Z.of_nat 1) with 1. intros _.
        assert (len name <> 65532) by (intros E; rewrite E in Hr; discriminate). lia.
      * intros Hbig. exfalso.
        assert (len name = 65533 \/ len name = 65534) as [E|E] by lia;
          rewrite E in Hr; discriminate.
    + exists 0%nat. split; [|split; [|split]].
      * change (Z.of_nat 0) with 0. rewrite Z.add_0_r.
        rewrite uint16_small by (change (2 ^ 16) with 65536; lia).
        simpl repeat. rewrite app_nil_r. simpl app. reflexivity.
      * change (Z.of_nat 0) with 0. rewrite Z.add_0_r.
        rewrite newline_in_PutUint16 by (change (2 ^ 16) with 65536; lia). tauto.
      * lia.
      * reflexivity.
Qed.

Lemma newline_not_in_escaped data : x0a ∉ replace_byte x0a [x5c; x5c; x00] data.
Proof.
  induction data as [|a data IH]; [apply not_elem_of_nil|].
  rewrite replace_byte_cons. rewrite elem_of_app. intros [H|H]; [|auto].
  destruct (decide (a = x0a)).
  - apply list_elem_of_In in H. cbn in H. intuition discriminate.
  - apply list_elem_of_In in H. cbn in H. intuition congruence.
Qed.

(** A frame of the send path, as the read loop sees it once [ReadBytes]
    has cut it out of the stream. *)
Lemma handleFrame_message now s L nameB esc :
  connected s = true -> 0 <= L <= 65532 -> len nameB = L ->
  handleFrame now s ([FRAME_TYPE_MESSAGE] ++ PutUint16 L ++ nameB ++ esc ++ [x0a])
  = (filtered ← unescape esc;
     evs ← envokeEvent s (trim x00 nameB) filtered;
     Ret (s, evs)).
Proof.
  intros Hc HL Hn. unfold handleFrame. rewrite Hc. simpl negb. cbv iota.
  pose proof (len_nonneg esc) as He.
  set (frame := [FRAME_TYPE_MESSAGE] ++ PutUint16 L ++ nameB ++ esc ++ [x0a]).
  assert (Hlen : len frame = 3 + L + len esc + 1).
  { unfold frame. rewrite !len_app. change (len [FRAME_TYPE_MESSAGE]) with 1.
    change (len (PutUint16 L)) with 2. change (len [x0a]) with 1. lia. }
  rewrite Hlen.
  destruct (Z.gtb_spec (3 + L + len esc + 1) 0); [|lia].
  change (index frame 0) with (@Ret byte FRAME_TYPE_MESSAGE). rewrite bind_Ret.
  rewrite bool_decide_eq_true_2 by reflexivity.
  destruct (Z.gtb_spec (3 + L + len esc + 1) 2); [|lia].
  pose proof (slice_app_mid [FRAME_TYPE_MESSAGE] (PutUint16 L) (nameB ++ esc ++ [x0a])) as S1.
  change (len [FRAME_TYPE_MESSAGE]) with 1 in S1. change (len (PutUint16 L)) with 2 in S1.
  change (1 + 2) with 3 in S1. fold frame in S1. rewrite S1, bind_Ret.
  rewrite <- (app_nil_r (PutUint16 L)) at 1.
  rewrite Uint16_PutUint16 by (change (2 ^ 16) with 65536; lia). rewrite bind_Ret.
  rewrite uint16_small by (change (2 ^ 16) with 65536; lia).
  pose proof (slice_app_mid ([FRAME_TYPE_MESSAGE] ++ PutUint16 L) nameB (esc ++ [x0a])) as S2.
  rewrite len_app, Hn in S2. change (len [FRAME_TYPE_MESSAGE]) with 1 in S2.
  change (len (PutUint16 L)) with 2 in S2. change (1 + 2) with 3 in S2.
  rewrite <- app_assoc in S2. fold frame in S2. rewrite S2, bind_Ret. cbv zeta.
  destruct (Z.gtb_spec (3 + L + len esc + 1) (3 + L)); [|lia].
  pose proof (slice_app_mid ([FRAME_TYPE_MESSAGE] ++ PutUint16 L ++ nameB) esc [x0a]) as S3.
  rewrite !len_app, Hn in S3. change (len [FRAME_TYPE_MESSAGE]) with 1 in S3.
  change (len (PutUint16 L)) with 2 in S3.
  rewrite <- !app_assoc in S3. fold frame in S3.
  replace (1 + (2 + L)) with (3 + L) in S3 by lia.
  replace (3 + L + len esc + 1 - 1) with (3 + L + len esc) by lia.
  rewrite S3, bind_Ret. reflexivity.
Qed.

(** The frame written for a message the codec carries. *)
Lemma wire_shape m :
  len (fst m) <= 65534 ->
  exists pad : nat,
    wire m = ([FRAME_TYPE_MESSAGE]
                ++ PutUint16 (len (remove_byte x0a (fst m)) + Z.of_nat pad)
                ++ (remove_byte x0a (fst m) ++ repeat x00 pad)
                ++ replace_byte x0a [x5c; x5c; x00] (snd m)) ++ [x0a] /\
    (x0a ∉ [FRAME_TYPE_MESSAGE]
             ++ PutUint16 (len (remove_byte x0a (fst m)) + Z.of_nat pad)
             ++ (remove_byte x0a (fst m) ++ repeat x00 pad)
             ++ replace_byte x0a [x5c; x5c; x00] (snd m)) /\
    (len (fst m) <= 65532 -> len (remove_byte x0a (fst m)) + Z.of_nat pad <= 65532) /\
    (65533 <= len (remove_byte x0a (fst m)) -> pad = 0%nat).
Proof.
  destruct m as [event data]. cbn [fst snd]. intros Hl.
  destruct (header_shape event FRAME_TYPE_MESSAGE Hl) as (pad & Hh & Hnl & Hb & Hp).
  exists pad. unfold wire, buildMessageFrame. cbn [fst snd]. rewrite Hh.
  split; [rewrite <- !app_assoc; reflexivity|]. split; [|auto].
  rewrite !elem_of_app. intros [H|[H|[[H|H]|H]]].
  - apply list_elem_of_In in H. cbn in H. intuition discriminate.
  - exact (Hnl H).
  - exact (newline_not_in_remove_byte _ H).
  - apply list_elem_of_In, repeat_spec in H. discriminate.
  - exact (newline_not_in_escaped _ H).
Qed.


End ServerCodec.

Section ServerStreams.
Import Go Props Server Scenario.




(** The first frame of the stream, cut out by [ReadBytes]. *)
Lemma listen_loop_first_frame fuel clock i s b (body more : list byte) :
  connected s = true -> closed (connection s) = false ->
  x0a ∉ body -> pending b (connection s) = body ++ x0a :: more ->
  exists b' c',
    closed c' = false /\ outgoing c' = outgoing (connection s) /\ pending b' c' = more /\
    listen_loop (S fuel) clock i s b
    = ('(s2, evs) ← handleFrame (clock i) (set_connection s c') (body ++ [x0a]);
       '(s3, evs') ← listen_loop fuel clock (S i) s2 b';
       Ret (s3, evs ++ evs')).
Proof.
  intros Hc Ho Hb Hp.
  destruct (bufio_ReadBytes_frame x0a b (connection s) body more Hb Ho Hp)
    as (b' & c' & ER & Hp' & Hc' & Ho').
  exists b', c'. split; [exact Hc'|]. split; [exact Ho'|]. split; [exact Hp'|].
  cbn [listen_loop]. rewrite Hc. simpl negb. cbv iota. rewrite ER. reflexivity.
Qed.

(** X15: data that ends in a backslash is accepted by the send path and
    makes the receiving loop index past the end of the data. *)
Theorem trailing_backslash_panics (clock : nat -> Z) (srv : Server) (s : Socket)
    (event data more : gostring) :
  connected s = true -> closed (connection s) = false ->
  len event <= 65532 -> ends_backslash data = true ->
  concat (incoming (connection s)) = wire (event, data) ++ more ->
  listen clock srv s = Crash IndexOutOfRange.
Proof.
  intros Hc Ho Hl Hend Hin.
  assert (Hl' : len (fst (event, data)) <= 65534) by (cbn [fst]; lia).
  destruct (wire_shape (event, data) Hl') as (pad & Hw & Hnl & Hb & _).
  cbn [fst snd] in Hw, Hnl, Hb. specialize (Hb Hl).
  rewrite Hw, <- app_assoc in Hin.
  destruct (listen_loop_first_frame (length (concat (incoming (connection s)))) clock 0%nat
              s [] _ _ Hc Ho Hnl Hin) as (b' & c' & _ & _ & _ & Hloop).
  unfold listen. rewrite Hloop.
  pose proof (len_remove_byte x0a event) as Hn.
  assert (HnB : len (remove_byte x0a event ++ repeat x00 pad)
                = len (remove_byte x0a event) + Z.of_nat pad)
    by (rewrite len_app, len_repeat; reflexivity).
  remember (remove_byte x0a event ++ repeat x00 pad) as nameB eqn:EnB.
  rewrite <- !app_assoc.
  rewrite (handleFrame_message (clock 0%nat) (set_connection s c')
             (len (remove_byte x0a event) + Z.of_nat pad) nameB
             (replace_byte x0a [x5c; x5c; x00] data));
    [|exact Hc|lia|exact HnB].
  rewrite unescape_decoded, ends_backslash_escaped, Hend. reflexivity.
Qed.

Lemma trailing_backslash_panics_witness :
  listen (fun _ => 0) served (accepted [wire (str "ev", [x61; x5c])])
  = Crash IndexOutOfRange.
Proof.
  apply (trailing_backslash_panics (fun _ => 0) served
           (accepted [wire (str "ev", [x61; x5c])]) (str "ev") [x61; x5c] []);
    try reflexivity.
  vm_compute. discriminate.
Defined.

Lemma handleFrame_long_name now s L rest :
  connected s = true -> 65533 <= L <= 65535 ->
  handleFrame now s ([FRAME_TYPE_MESSAGE] ++ PutUint16 L ++ rest)
  = Crash SliceOutOfRange.
Proof.
  intros Hc HL. unfold handleFrame. rewrite Hc. simpl negb. cbv iota.
  pose proof (len_nonneg rest) as Hr.
  set (frame := [FRAME_TYPE_MESSAGE] ++ PutUint16 L ++ rest).
  assert (Hlen : len frame = 3 + len rest).
  { unfold frame. rewrite !len_app. change (len [FRAME_TYPE_MESSAGE]) with 1.
    change (len (PutUint16 L)) with 2. lia. }
  rewrite Hlen.
  destruct (Z.gtb_spec (3 + len rest) 0); [|lia].
  change (index frame 0) with (@Ret byte FRAME_TYPE_MESSAGE). rewrite bind_Ret.
  rewrite bool_decide_eq_true_2 by reflexivity.
  destruct (Z.gtb_spec (3 + len rest) 2); [|lia].
  pose proof (slice_app_mid [FRAME_TYPE_MESSAGE] (PutUint16 L) rest) as S1.
  change (len [FRAME_TYPE_MESSAGE]) with 1 in S1. change (len (PutUint16 L)) with 2 in S1.
  change (1 + 2) with 3 in S1. fold frame in S1. rewrite S1, bind_Ret.
  rewrite <- (app_nil_r (PutUint16 L)) at 1.
  rewrite Uint16_PutUint16 by (change (2 ^ 16) with 65536; lia). rewrite bind_Ret.
  assert (Hs : slice frame 3 (uint16 (3 + L)) = Crash SliceOutOfRange).
  { unfold slice, uint16. change (2 ^ 16) with 65536.
    replace (3 + L) with (L - 65533 + 1 * 65536) by lia.
    rewrite Z.mod_add, Z.mod_small by lia.
    destruct (Z.leb_spec 3 (L - 65533)); [lia|]. reflexivity. }
  rewrite Hs. reflexivity.
Qed.

(** X16: a name of 65533 or 65534 bytes is accepted by the send path;
    at the receiving end the slice bound computed from its length wraps
    around and the read loop panics. *)
Theorem long_name_panics_receiver (clock : nat -> Z) (srv : Server) (s : Socket)
    (event data more : gostring) :
  connected s = true -> closed (connection s) = false ->
  len event <= 65534 -> 65533 <= len (remove_byte x0a event) ->
  concat (incoming (connection s)) = wire (event, data) ++ more ->
  listen clock srv s = Crash SliceOutOfRange.
Proof.
  intros Hc Ho Hl Hbig Hin.
  assert (Hl' : len (fst (event, data)) <= 65534) by (cbn [fst]; lia).
  destruct (wire_shape (event, data) Hl') as (pad & Hw & Hnl & _ & Hp).
  cbn [fst snd] in Hw, Hnl, Hp. specialize (Hp Hbig). subst pad.
  rewrite Hw, <- app_assoc in Hin.
  destruct (listen_loop_first_frame (length (concat (incoming (connection s)))) clock 0%nat
              s [] _ _ Hc Ho Hnl Hin) as (b' & c' & _ & _ & _ & Hloop).
  unfold listen. rewrite Hloop.
  pose proof (len_remove_byte x0a event) as Hn.
  rewrite <- !app_assoc.
  rewrite (handleFrame_long_name (clock 0%nat) (set_connection s c')); [reflexivity|exact Hc|].
  change (Z.of_nat 0) with 0. lia.
Qed.

Lemma long_name_panics_receiver_witness :
  listen (fun _ => 0) served (accepted [wire (repeat x61 (Z.to_nat 65533), str "d")])
  = Crash SliceOutOfRange.
Proof.
  apply (long_name_panics_receiver (fun _ => 0) served
           (accepted [wire (repeat x61 (Z.to_nat 65533), str "d")])
           (repeat x61 (Z.to_nat 65533)) (str "d") []);
    [reflexivity|reflexivity|vm_compute; discriminate|vm_compute; discriminate
    |reflexivity].
Defined.



End ServerStreams.

(** ** Packets of the text protocol *)

Section LegacyPackets.
Import Go Props LegacyClient LegacyWire.

Lemma NUL_not_in_replaced (s : list byte) : x00 ∉ replace_byte x00 [x01] s.
Proof.
  induction s as [|a s IH]; [apply not_elem_of_nil|].
  rewrite replace_byte_cons, elem_of_app. intros [H|H]; [|auto].
  destruct (decide (a = x00)); apply list_elem_of_In in H; cbn in H; intuition congruence.
Qed.

Lemma NUL_not_in_escaped (s : gostring) : x00 ∉ escaped s.
Proof.
  unfold escaped.
  destruct (bool_decide _) eqn:E; [apply NUL_not_in_replaced|].
  apply bool_decide_eq_false in E. exact E.
Qed.

(** X18: [emit] of the text protocol writes one packet; the packet ends
    in a NUL byte and holds no other, so the [ReadString] of the
    receiving loop returns exactly this packet, in whatever reads it
    arrives; on a closed connection nothing is written. *)
Theorem legacy_packet_framed (s : Socket) (event data : gostring) :
  (closed (connection s) = false ->
   exists body,
     outgoing (connection (emit s event data)) = outgoing (connection s) ++ [body ++ [x00]] /\
     (x00 ∉ body) /\
     forall b c more,
       closed c = false -> pending b c = (body ++ [x00]) ++ more ->
       exists b' c', bufio_ReadBytes x00 b c = (body ++ [x00], None, b', c') /\
                     pending b' c' = more) /\
  (closed (connection s) = true -> connection (emit s event data) = connection s).
Proof.
  split; intros Hc.
  - exists (escaped event ++ DELIMITER ++ escaped data).
    split; [|split].
    + unfold emit, conn_Write. rewrite Hc. cbn [snd connection outgoing].
      rewrite <- !app_assoc. reflexivity.
    + rewrite !elem_of_app. intros [H|[H|H]].
      * exact (NUL_not_in_escaped _ H).
      * apply list_elem_of_In in H. cbn in H. intuition discriminate.
      * exact (NUL_not_in_escaped _ H).
    + intros b c more Hcl Hp. rewrite <- app_assoc in Hp.
      assert (Hnul : x00 ∉ escaped event ++ DELIMITER ++ escaped data).
      { rewrite !elem_of_app. intros [H|[H|H]].
        - exact (NUL_not_in_escaped _ H).
        - apply list_elem_of_In in H. cbn in H. intuition discriminate.
        - exact (NUL_not_in_escaped _ H). }
      destruct (bufio_ReadBytes_frame x00 b c _ more Hnul Hcl Hp) as (b' & c' & ER & Hp' & _).
      exists b', c'. auto.
  - unfold emit, conn_Write. rewrite Hc. reflexivity.
Qed.

Lemma legacy_packet_framed_witness :
  exists body,
    outgoing (connection (emit (mkSocket (mkConn [] [] false) ∅ (Some noop) (Some noop))
                            [x61; xc2; xa7] [x00; x62]))
    = [] ++ [body ++ [x00]] /\
    (x00 ∉ body) /\
    forall b c more,
      closed c = false -> pending b c = (body ++ [x00]) ++ more ->
      exists b' c', bufio_ReadBytes x00 b c = (body ++ [x00], None, b', c') /\
                    pending b' c' = more.
Proof.
  apply (legacy_packet_framed (mkSocket (mkConn [] [] false) ∅ (Some noop) (Some noop))
           [x61; xc2; xa7] [x00; x62]).
  reflexivity.
Defined.

Example legacy_packet_bytes :
  outgoing (connection (emit (mkSocket (mkConn [] [] false) ∅ (Some noop) (Some noop))
                          [x61; xc2; xa7] [x00; x62]))
  = [[x61; x5c; xc2; xa7; xc2; xa7; x01; x62; x00]].
Proof. vm_compute. reflexivity. Qed.
End LegacyPackets.
